(** * gotable: ASCII tables and CSV for Go structs

    A shallow embedding of [gotable.go] (package [gotable]) and the
    properties of its introspector ([TableRow]) and of its two renderers
    ([generateTable], [generateCSV]) behind the entry points
    [GenerateTable] and [GenerateCSV].

    Go strings are byte strings: they are Rocq [string]s, [len] is
    [String.length].  Go maps [map[string]string] are [gmap string string];
    reading a missing key yields the zero value, the empty string. *)

From Stdlib Require Import ZArith NArith Ascii String List Lia.
From Stdlib Require Import DecimalString DecimalPos DecimalZ.
From stdpp Require Import base option list gmap strings.

(** ** Go strings *)

Module GoString.

(** [len(s)]: the number of bytes. *)
Definition len (s : string) : nat := String.length s.

(** [strings.Repeat(s, count)]. *)
Fixpoint Repeat (s : string) (count : nat) : string :=
  match count with
  | O => ""
  | S k => s +:+ Repeat s k
  end.

(** [strings.Join(elems, sep)]. *)
Fixpoint Join (elems : list string) (sep : string) : string :=
  match elems with
  | [] => ""
  | e :: rest =>
      match rest with
      | [] => e
      | _ :: _ => e +:+ sep +:+ Join rest sep
      end
  end.

(** The texts of a list one after the other. *)
Definition Concat (parts : list string) : string :=
  foldr String.append "" parts.

(** The line feed, ["\n"]. *)
Definition newline : string := String "010" EmptyString.

(** [s[i]] as an optional byte value. *)
Definition byte_at (i : nat) (s : string) : option N :=
  N_of_ascii <$> String.get i s.

End GoString.

(** ** unicode/utf8: counting runes

    [fmt] measures widths in runes, so the padding of a cell depends on
    [utf8.RuneCountInString].  The decoder below follows the tables of
    the Go standard library: [first] classifies the leading byte, the
    accept range bounds the second byte, and every byte that does not
    start a well-formed sequence counts as one rune of width one. *)

Module utf8.

Inductive firstInfo : Type :=
| as_ (* ASCII, width 1 *)
| xx  (* invalid leading byte, width 1 *)
| s1 | s2 | s3 | s4 | s5 | s6 | s7.

Definition first (c : N) : firstInfo :=
  if (c <? 0x80)%N then as_
  else if (c <? 0xC2)%N then xx
  else if (c <? 0xE0)%N then s1
  else if (c =? 0xE0)%N then s2
  else if (c <? 0xED)%N then s3
  else if (c =? 0xED)%N then s4
  else if (c <? 0xF0)%N then s3
  else if (c =? 0xF0)%N then s5
  else if (c <? 0xF4)%N then s6
  else if (c =? 0xF4)%N then s7
  else xx.

(** [int(x & 7)] *)
Definition size_of (x : firstInfo) : nat :=
  match x with
  | as_ | xx => 1
  | s1 => 2
  | s2 | s3 | s4 => 3
  | s5 | s6 | s7 => 4
  end.

Definition locb : N := 0x80.
Definition hicb : N := 0xBF.

(** [acceptRanges[x>>4]] *)
Definition acceptRange (x : firstInfo) : N * N :=
  match x with
  | s2 => (0xA0, hicb)
  | s4 => (locb, 0x9F)
  | s5 => (0x90, hicb)
  | s7 => (locb, 0x8F)
  | _ => (locb, hicb)
  end%N.

(** Is the byte at offset [i] of [rest] inside [lo..hi]? *)
Definition accepts (lo hi : N) (i : nat) (rest : string) : bool :=
  match GoString.byte_at i rest with
  | Some c => (lo <=? c)%N && (c <=? hi)%N
  | None => false
  end.

(** Width in bytes of the rune that starts with byte [c] and is followed
    by [rest]: one iteration of the loop of [RuneCountInString]. *)
Definition rune_width (c : ascii) (rest : string) : nat :=
  let x := first (N_of_ascii c) in
  match x with
  | as_ | xx => 1
  | _ =>
      let size := size_of x in
      if String.length rest <? size - 1 then 1
      else if negb (accepts (acceptRange x).1 (acceptRange x).2 0 rest) then 1
      else if size =? 2 then 2
      else if negb (accepts locb hicb 1 rest) then 1
      else if size =? 3 then 3
      else if negb (accepts locb hicb 2 rest) then 1
      else size
  end.

(** The loop of [RuneCountInString]; [skip] is the number of bytes still
    belonging to the rune counted last. *)
Fixpoint count_from (skip : nat) (s : string) : nat :=
  match s with
  | EmptyString => 0
  | String c rest =>
      match skip with
      | S k => count_from k rest
      | O => S (count_from (rune_width c rest - 1) rest)
      end
  end.

Definition RuneCountInString (s : string) : nat := count_from 0 s.

End utf8.

(** ** fmt: the two verbs the program uses *)

Module fmt.

(** [fmt.Sprintf("%d", n)]: an optional minus sign and the decimal
    digits, no leading zeros. *)
Definition Sprintf_d (n : Z) : string := NilZero.string_of_int (Z.to_int n).

(** [fmt.Sprintf("%-Ws", s)]: [s] followed by the blanks that bring it to
    [wid] runes; nothing is added when [s] already has [wid] runes or more
    (and for [wid = 0], where the format reads ["%-0s"]). *)
Definition padString (wid : nat) (s : string) : string :=
  s +:+ GoString.Repeat " " (wid - utf8.RuneCountInString s).

(** A width reaches [fmt] as the digits [Sprintf("%%-%ds", width)] printed
    into the format.  [parsenum] reads them back one at a time and gives
    up when the number read so far exceeds a million and another digit
    follows: it reads every width up to 10,000,009 and refuses the widths
    from 10,000,010 on. *)
Definition width_refused (wid : nat) : bool := (10000010 <=? N.of_nat wid)%N.

(** What [Sprintf] appends for the arguments its format did not use:
    nothing when none is left, else ["%!(EXTRA string=a, string=b)"]. *)
Definition extra (args : list string) : string :=
  match args with
  | [] => ""
  | _ :: _ =>
      "%!(EXTRA "
      +:+ GoString.Join (map (fun a => "string=" +:+ a) args) ", "
      +:+ ")"
  end.

End fmt.

(** ** reflect: kinds and field values *)

Module reflect.

(** [reflect.Kind], all of its values. *)
Inductive Kind : Type :=
| Invalid | Bool
| Int | Int8 | Int16 | Int32 | Int64
| Uint | Uint8 | Uint16 | Uint32 | Uint64 | Uintptr
| Float32 | Float64 | Complex64 | Complex128
| Array | Chan | Func | Interface | Map | Pointer | Slice
| String | Struct | UnsafePointer.

(** The kinds under which the program calls [Value.Int], those under
    which it calls [Value.Uint], and the kinds it reads with none of its
    four accessors.  [reflect.Uintptr] is a kind of its own, apart from
    [Uint] .. [Uint64]; a [uintptr] keeps the number [Value.Uint] would
    read from it. *)
Inductive IntKind : Type := KInt | KInt8 | KInt16 | KInt32 | KInt64.
Inductive UintKind : Type := KUint | KUint8 | KUint16 | KUint32 | KUint64.
Inductive OtherKind : Type :=
| KUintptr (u : Z) | KFloat32 | KFloat64 | KComplex64 | KComplex128
| KArray | KChan | KFunc | KInterface | KMap | KPointer | KSlice
| KStruct | KUnsafePointer.

(** A valid [reflect.Value] of a struct field: its kind with the payload
    the accessors [Bool], [Int], [Uint] and [String] read.  Values of the
    remaining kinds carry nothing the program looks at. *)
Inductive Value : Type :=
| BoolValue (b : bool)
| IntValue (k : IntKind) (i : Z)
| UintValue (k : UintKind) (u : Z)
| StringValue (s : string)
| OtherValue (k : OtherKind).

Definition Kind_of_int (k : IntKind) : Kind :=
  match k with
  | KInt => Int | KInt8 => Int8 | KInt16 => Int16
  | KInt32 => Int32 | KInt64 => Int64
  end.

Definition Kind_of_uint (k : UintKind) : Kind :=
  match k with
  | KUint => Uint | KUint8 => Uint8 | KUint16 => Uint16
  | KUint32 => Uint32 | KUint64 => Uint64
  end.

Definition Kind_of_other (k : OtherKind) : Kind :=
  match k with
  | KUintptr _ => Uintptr
  | KFloat32 => Float32 | KFloat64 => Float64
  | KComplex64 => Complex64 | KComplex128 => Complex128
  | KArray => Array | KChan => Chan | KFunc => Func
  | KInterface => Interface | KMap => Map | KPointer => Pointer
  | KSlice => Slice | KStruct => Struct | KUnsafePointer => UnsafePointer
  end.

(** [v.Kind()] *)
Definition Kind_of (v : Value) : Kind :=
  match v with
  | BoolValue _ => Bool
  | IntValue k _ => Kind_of_int k
  | UintValue k _ => Kind_of_uint k
  | StringValue _ => String
  | OtherValue k => Kind_of_other k
  end.

(** The accessors panic in Go when the kind does not fit; the program
    calls each one under the matching [case] only, and the model returns
    the zero value elsewhere. *)
Definition Value_String (v : Value) : string :=
  match v with StringValue s => s | _ => "" end.
Definition Value_Int (v : Value) : Z :=
  match v with IntValue _ i => i | _ => 0%Z end.
Definition Value_Uint (v : Value) : Z :=
  match v with UintValue _ u => u | _ => 0%Z end.
Definition Value_Bool (v : Value) : bool :=
  match v with BoolValue b => b | _ => false end.

(** [reflect.StructTag], by its pairs of key and value; [Get] returns the
    empty string for a key the tag does not have. *)
Definition StructTag : Type := list (string * string).

Fixpoint StructTag_Get (tag : StructTag) (key : string) : string :=
  match tag with
  | [] => ""
  | (k, v) :: rest => if decide (k = key) then v else StructTag_Get rest key
  end.

(** [reflect.StructField]: the name and the tag, with the value the
    struct holds in that field. *)
Record StructField : Type := {
  Name : string;
  Tag : StructTag;
  FieldValue : Value
}.

(** [Type.FieldByName] / [Value.FieldByName] among the declared fields:
    the first field of that name.  A declared name is found before any
    promoted one, so this is the lookup [TableRow] makes; for an
    arbitrary name it is the whole lookup on a type that embeds no
    struct. *)
Fixpoint FieldByName (fs : list StructField) (name : string) : option StructField :=
  match fs with
  | [] => None
  | f :: rest => if decide (Name f = name) then Some f else FieldByName rest name
  end.

End reflect.
Import reflect.

(** ** gotable *)

(** Go's [error], by its message; [None] is [nil]. *)
Definition error : Type := string.

Definition TABLE_HEADER_TAG : string := "header".
Definition NOT_SUPPORTED : string := "NO_SUPPORT".

(** [type TableStruct interface { GetHeader(string) (string, error) }],
    together with the struct value behind the interface, which [TableRow]
    reaches through reflection: its type name and its fields in declared
    order.  The value is a struct; behind a pointer [NumField] panics and
    nothing is returned. *)
Record TableStruct : Type := {
  TypeName : string;
  Fields : list StructField;
  GetHeader : string -> string * option error
}.

(** [m[k]] on a [map[string]string]. *)
Definition map_index (m : gmap string string) (k : string) : string :=
  default "" (m !! k).

(** The [switch fval.Kind()] of [TableRow]. *)
Definition stringify (fval : Value) : string :=
  match Kind_of fval with
  | String => Value_String fval
  | Int | Int8 | Int16 | Int32 | Int64 => fmt.Sprintf_d (Value_Int fval)
  | Uint | Uint8 | Uint16 | Uint32 | Uint64 => fmt.Sprintf_d (Value_Uint fval)
  | Bool => if Value_Bool fval then "true" else "false"
  | _ => NOT_SUPPORTED
  end.

(** The [for i := 0; i < fieldCnt; i++] loop of [TableRow] over the
    fields still to visit, with the two maps built so far.  A failing
    [GetHeader] leaves through [return row, row, err]. *)
Fixpoint TableRow_loop (table : TableStruct) (todo : list StructField)
    (row headers : gmap string string)
  : gmap string string * gmap string string * option error :=
  match todo with
  | [] => (row, headers, None)
  | f :: todo' =>
      match GetHeader table (Name f) with
      | (_, Some err) => (row, row, Some err)
      | (header, None) =>
          let fval := FieldByName (Fields table) (Name f) in
          let headers := <[Name f := header]> headers in
          match fval with
          | None => TableRow_loop table todo' row headers
          | Some fv =>
              TableRow_loop table todo'
                (<[Name f := stringify (FieldValue fv)]> row) headers
          end
      end
  end.

Definition TableRow (table : TableStruct)
  : gmap string string * gmap string string * option error :=
  TableRow_loop table (Fields table) ∅ ∅.

(** [GetHeaderTag(v, fieldName)], the helper record types use to
    implement [GetHeader]. *)
Definition GetHeaderTag (typeName : string) (fs : list StructField)
    (fieldName : string) : string * option error :=
  match FieldByName fs fieldName with
  | None => ("", Some ("Invalid field '" +:+ fieldName +:+ "' in " +:+ typeName))
  | Some field => (StructTag_Get (Tag field) TABLE_HEADER_TAG, None)
  end.

(** A record type whose [GetHeader] is [GetHeaderTag], the usual
    implementation. *)
Definition tagged (typeName : string) (fs : list StructField) : TableStruct :=
  {| TypeName := typeName; Fields := fs;
     GetHeader := GetHeaderTag typeName fs |}.

(** *** Loops over slices *)

(** [for i, x := range xs { st = body(i, x, st) }], counting from [i]. *)
Fixpoint for_range {A St : Type} (body : nat -> A -> St -> St)
    (i : nat) (xs : list A) (st : St) : St :=
  match xs with
  | [] => st
  | x :: xs' => for_range body (S i) xs' (body i x st)
  end.

(** [make([]T, n)]: [n] zero values. *)
Definition make {T : Type} (zero : T) (n : nat) : list T := replicate n zero.

(** [xs[i]] where the index is known to be in range (Go panics
    otherwise). *)
Definition at_ (xs : list nat) (i : nat) : nat := default 0 (xs !! i).

(** *** Format strings

    [generateTable] builds its format with [Sprintf("%%-%ds", width)] and
    [strings.Join]; the format is kept here as the sequence of its
    directives, and [Sprintf] below accounts for the widths that [fmt]
    does not read back from the text. *)

Inductive directive : Type :=
| Literal (s : string)          (* text copied as it is *)
| LeftString (wid : nat).       (* %-<wid>s *)

Definition format : Type := list directive.

(** [strings.Join] over formats. *)
Fixpoint Join_format (elems : list format) (sep : format) : format :=
  match elems with
  | [] => []
  | e :: rest =>
      match rest with
      | [] => e
      | _ :: _ => (e ++ sep ++ Join_format rest sep)%list
      end
  end.

(** [fmt.Sprintf(f, args...)] for a format of these directives.  At a
    directive whose width [fmt] refuses to read, the rest of the format
    has no verb: [Sprintf] writes ["%!(NOVERB)"], drops what follows in
    the format and reports the arguments not yet used. *)
Fixpoint Sprintf (f : format) (args : list string) : string :=
  match f with
  | [] => fmt.extra args
  | Literal s :: f' => s +:+ Sprintf f' args
  | LeftString wid :: f' =>
      if fmt.width_refused wid then "%!(NOVERB)" +:+ fmt.extra args
      else
        match args with
        | a :: args' => fmt.padString wid a +:+ Sprintf f' args'
        | [] => "%!s(MISSING)" +:+ Sprintf f' []
        end
  end.

(** *** The text renderer *)

Section generateTable.
Variable data : list (gmap string string).
Variable fieldMap : gmap string string.
Variable fields : list string.

(** figure out width of column headers *)
Definition header_widths : list nat :=
  for_range (fun i field colWidth =>
               <[i := GoString.len (map_index fieldMap field)]> colWidth)
    0 fields (make 0 (length fields)).

(** calc max len of every column & build our row: the body for one
    element [r] of [data]. *)
Definition scan_row (r : gmap string string)
    (st : list (list string) * list nat) : list (list string) * list nat :=
  let '(table, colWidth) := st in
  let '(row, colWidth) :=
    for_range (fun i field (acc : list string * list nat) =>
                 let '(row, colWidth) := acc in
                 let row := <[i := map_index r field]> row in
                 if at_ colWidth i <? GoString.len (map_index r field)
                 then (row, <[i := GoString.len (map_index r field)]> colWidth)
                 else (row, colWidth))
      0 fields (make "" (length fields), colWidth) in
  ((table ++ [row])%list, colWidth).

Definition scan_data : list (list string) * list nat :=
  foldl (fun st r => scan_row r st) ([], header_widths) data.

Definition colWidth : list nat := scan_data.2.

(** build our fstring for each row *)
Definition fstrings : list format :=
  for_range (fun i width fs => <[i := [LeftString width]]> fs)
    0 colWidth (make [] (length fields)).

Definition fstring : format :=
  (Join_format fstrings [Literal " | "] ++ [Literal GoString.newline])%list.

Definition finter : list string :=
  for_range (fun i field fi => <[i := map_index fieldMap field]> fi)
    0 fields (make "" (length fields)).

Definition headerLine : string := Sprintf fstring finter.

Definition underline : string :=
  GoString.Repeat "=" (GoString.len headerLine - 1).

(** print each row: the values of one element of [data] *)
Definition values (row : gmap string string) : list string :=
  for_range (fun i field vs => <[i := map_index row field]> vs)
    0 fields (make "" (length fields)).

Definition print_rows : string :=
  foldl (fun out row => out +:+ Sprintf fstring (values row)) "" data.

(** Everything [generateTable] writes to standard output. *)
Definition generateTable : string :=
  (headerLine +:+ underline +:+ GoString.newline) +:+ print_rows.
End generateTable.

(** *** [GenerateTable] *)

(** The [for _, item := range tables] loop of [GenerateTable], with the
    locals [table] and [headers]. *)
Fixpoint GenerateTable_loop (tables : list TableStruct)
    (table : list (gmap string string)) (headers : gmap string string)
  : list (gmap string string) * gmap string string * option error :=
  match tables with
  | [] => (table, headers, None)
  | item :: rest =>
      let '(row, h, err) := TableRow item in
      match err with
      | Some e => (table, headers, Some e)
      | None => GenerateTable_loop rest (table ++ [row])%list h
      end
  end.

(** [GenerateTable(tables, fields)]: what reaches standard output, and
    the error returned. *)
Definition GenerateTable (tables : list TableStruct) (fields : list string)
  : string * option error :=
  match GenerateTable_loop tables [] ∅ with
  | (_, _, Some err) => ("", Some err)
  | (table, headers, None) => (generateTable table headers fields, None)
  end.

(** *** encoding/csv

    [csv.Writer] and the stream below it belong to the Go library and to
    the operating system.  [World] is the state of both; the three
    operations are the ones the program calls. *)

Class CsvWriter (World : Type) : Type := {
  csv_NewWriter : World -> World;                           (* csv.NewWriter(os.Stdout) *)
  csv_Write : list string -> World -> World * option error; (* w.Write(record) *)
  csv_Flush : World -> World                                (* w.Flush() *)
}.

Section generateCSV.
Context {World : Type} `{CsvWriter World}.

(** The [for _, row := range data] loop of [generateCSV]. *)
Fixpoint generateCSV_loop (data : list (gmap string string))
    (fields : list string) (w : World) : World * option error :=
  match data with
  | [] => (w, None)
  | row :: rest =>
      let values :=
        for_range (fun i field vs => <[i := map_index row field]> vs)
          0 fields (make "" (length fields)) in
      match csv_Write values w with
      | (w', Some err) => (w', Some err)
      | (w', None) => generateCSV_loop rest fields w'
      end
  end.

(** [generateCSV(data, fields)]; the deferred [w.Flush()] runs on both
    exits. *)
Definition generateCSV (data : list (gmap string string))
    (fields : list string) (w : World) : World * option error :=
  let w := csv_NewWriter w in
  let '(w, err) := generateCSV_loop data fields w in
  (csv_Flush w, err).

(** The [for _, item := range tables] loop of [GenerateCSV]. *)
Fixpoint GenerateCSV_loop (tables : list TableStruct)
    (table : list (gmap string string))
  : list (gmap string string) * option error :=
  match tables with
  | [] => (table, None)
  | item :: rest =>
      let '(row, _, err) := TableRow item in
      match err with
      | Some e => (table, Some e)
      | None => GenerateCSV_loop rest (table ++ [row])%list
      end
  end.

(** [GenerateCSV(tables, fields)]: the call [generateCSV(table, fields)]
    is a statement, its result is not used, and [return nil] follows. *)
Definition GenerateCSV (tables : list TableStruct) (fields : list string)
    (w : World) : World * option error :=
  match GenerateCSV_loop tables [] with
  | (_, Some err) => (w, Some err)
  | (table, None) =>
      let '(w', _) := generateCSV table fields w in
      (w', None)
  end.
End generateCSV.

(** *** Sample records *)

Module Samples.

Definition person (name : string) (age : Z) : TableStruct :=
  tagged "Person"
    [ {| Name := "Name"; Tag := [("header", "Name")]; FieldValue := StringValue name |};
      {| Name := "Age"; Tag := [("header", "Age")]; FieldValue := IntValue KInt age |} ].

Definition people : list TableStruct := [person "Alice" 30; person "Bob" 5].

(** A record type whose [GetHeader] consults the tags of another type,
    one that has the field [Name] only. *)
Definition half_known (name : string) (age : Z) : TableStruct :=
  {| TypeName := "Half";
     Fields := Fields (person name age);
     GetHeader :=
       GetHeaderTag "Half"
         [ {| Name := "Name"; Tag := [("header", "Name")]; FieldValue := StringValue "" |} ] |}.

(** A stream that takes [room] more records and then rejects every
    write, under a writer that does not buffer. *)
Record pipe : Type := { taken : list (list string); room : nat }.

#[global] Instance pipe_writer : CsvWriter pipe := {
  csv_NewWriter w := w;
  csv_Write record w :=
    match room w with
    | O => (w, Some "write /dev/stdout: broken pipe")
    | S k => ({| taken := (taken w ++ [record])%list; room := k |}, None)
    end;
  csv_Flush w := w
}.

(** A record with one text field whose tag gives the header [h]. *)
Definition labelled (h v : string) : TableStruct :=
  tagged "Item"
    [ {| Name := "Val"; Tag := [("header", h)]; FieldValue := StringValue v |} ].

(** A stream with room for [n] records. *)
Definition pipe_with_room (n : nat) : pipe := {| taken := []; room := n |}.

(** A width [fmt] does not read back. *)
Definition huge : nat := N.to_nat 10000010.

(** Rows and headers as the renderer is handed them: two rows, the
    second without an entry for [Town]. *)
Definition town_rows : list (gmap string string) :=
  [ {["Name" := "Alice"; "Town" := "Oslo"]}; {["Name" := "Bob"]} ].
Definition town_headers : gmap string string :=
  {["Name" := "Name"; "Town" := "Town"]}.

(** A record with a field of type [uintptr]. *)
Definition handle (h : Z) : TableStruct :=
  tagged "Handle"
    [ {| Name := "Fd"; Tag := [("header", "Descriptor")];
         FieldValue := OtherValue (KUintptr h) |} ].

(** The letter e with an acute accent: one rune, two bytes in UTF-8. *)
Definition e_acute : string :=
  String.String "195" (String.String "169" EmptyString).

End Samples.

(** *** The renderer in the words of its description

    Column width for a selected field: the larger of the length of its
    header and of the longest value of that field over all rows. *)
Definition column_width (data : list (gmap string string))
    (fieldMap : gmap string string) (field : string) : nat :=
  Nat.max (GoString.len (map_index fieldMap field))
          (max_list_with (fun r => GoString.len (map_index r field)) data).

(** A cell of the text table: the entry of [m] for [field], left-justified
    in [wid] columns; blanks alone where [m] has no such entry. *)
Definition render_cell (wid : nat) (m : gmap string string) (field : string) : string :=
  match m !! field with
  | Some s => fmt.padString wid s
  | None => GoString.Repeat " " wid
  end.

(** One line of the text table. *)
Definition render_line (data : list (gmap string string))
    (fieldMap : gmap string string) (fields : list string)
    (m : gmap string string) : string :=
  GoString.Join
    (map (fun field => render_cell (column_width data fieldMap field) m field) fields)
    " | " +:+ GoString.newline.

(** The records a renderer is handed: one slice of strings per row, the
    selected fields in order. *)
Definition cells (table : list (gmap string string)) (fields : list string)
  : list (list string) :=
  map (fun row => map (map_index row) fields) table.

(** [w.Write] over the records in turn, stopping at the first error. *)
Fixpoint write_all {World : Type} `{CsvWriter World}
    (records : list (list string)) (w : World) : World * option error :=
  match records with
  | [] => (w, None)
  | record :: rest =>
      match csv_Write record w with
      | (w', Some err) => (w', Some err)
      | (w', None) => write_all rest w'
      end
  end.

(** The header of the field [f] resolves: [GetHeader] returns no error
    for its name. *)
Definition resolves (table : TableStruct) (f : StructField) : Prop :=
  (GetHeader table (Name f)).2 = None.

(** One turn of the loop of [TableRow] on a field whose header
    resolves: what it does to [row] and to [headers]. *)
Definition row_step (table : TableStruct) (row : gmap string string)
    (f : StructField) : gmap string string :=
  match FieldByName (Fields table) (Name f) with
  | Some fv => <[Name f := stringify (FieldValue fv)]> row
  | None => row
  end.

Definition headers_step (table : TableStruct) (headers : gmap string string)
    (f : StructField) : gmap string string :=
  <[Name f := (GetHeader table (Name f)).1]> headers.

(** The row and the header map [TableRow] has built after the fields
    [done], all of them resolved. *)
Definition row_after (table : TableStruct) (done : list StructField)
  : gmap string string :=
  foldl (row_step table) ∅ done.

Definition headers_after (table : TableStruct) (done : list StructField)
  : gmap string string :=
  foldl (headers_step table) ∅ done.

(** [s] is the base-10 numeral of [n]: a minus sign for a negative
    number, then its digits without leading zeros. *)
Definition decimal_of (n : Z) (s : string) : Prop :=
  NilZero.int_of_string s = Some (Z.to_int n).

(** Stringification as the description of the introspector gives it, by
    the type of the field: every integer type, signed or unsigned, of
    any width, [uintptr] among the unsigned ones, has its numeral. *)
Inductive stringified : Value -> string -> Prop :=
| text_itself s : stringified (StringValue s) s
| signed_decimal k i s : decimal_of i s -> stringified (IntValue k i) s
| unsigned_decimal k u s : decimal_of u s -> stringified (UintValue k u) s
| pointer_sized_decimal u s :
    decimal_of u s -> stringified (OtherValue (KUintptr u)) s
| boolean_true : stringified (BoolValue true) "true"
| boolean_false : stringified (BoolValue false) "false"
| other_sentinel k :
    (forall u, k <> KUintptr u) -> stringified (OtherValue k) "NO_SUPPORT".

(** The value is a [uintptr]. *)
Definition is_uintptr (v : Value) : Prop := exists u, v = OtherValue (KUintptr u).

(** Every column of the table is of a width [fmt] reads back from the
    format: narrower than 10,000,010. *)
Definition widths_fit (data : list (gmap string string))
    (fieldMap : gmap string string) (fields : list string) : Prop :=
  Forall (fun wid => fmt.width_refused wid = false) (colWidth data fieldMap fields).

(** The declared fields embed no struct: none of them is of kind
    [Struct] or [Pointer], so that no field is promoted into the type and
    [Type.FieldByName] finds the declared fields only. *)
Definition embeds_nothing (fs : list StructField) : Prop :=
  Forall (fun f => Kind_of (FieldValue f) <> Struct
                   /\ Kind_of (FieldValue f) <> Pointer) fs.

(** The first byte of [t], if there is one, is ASCII: [t] cannot continue
    a multi-byte sequence left open before it. *)
Definition ascii_head (t : string) : Prop :=
  match t with
  | EmptyString => True
  | String.String c _ => (N_of_ascii c < 0x80)%N
  end.

(** One pass of the inner loop of [generateTable] widens a column to the
    value of the row where that is longer. *)
Definition widen (r : gmap string string) (field : string) (w : nat) : nat :=
  Nat.max w (GoString.len (map_index r field)).

(** The header line of a table without headers: empty cells between the
    separators. *)
Definition blank_header (fields : list string) : string :=
  GoString.Join (replicate (length fields) "") " | ".

(** The two maps [TableRow] returns, and whether it returns them without
    an error. *)
Definition row_of (item : TableStruct) : gmap string string := (TableRow item).1.1.
Definition headers_of (item : TableStruct) : gmap string string := (TableRow item).1.2.
Definition introspects (item : TableStruct) : Prop := (TableRow item).2 = None.

#[local] Instance resolves_dec table f : Decision (resolves table f) :=
  decide ((GetHeader table (Name f)).2 = None).

#[local] Instance introspects_dec item : Decision (introspects item) :=
  decide ((TableRow item).2 = None).

(** *** Further vocabulary for the properties

    The number of bytes equal to [c] in [s]. *)
Fixpoint count_byte (c : ascii) (s : string) : nat :=
  match s with
  | EmptyString => 0
  | String.String a rest =>
      (if decide (a = c) then 1 else 0) + count_byte c rest
  end.

(** The line feeds of a text: the lines it is printed as. *)
Definition line_feeds (s : string) : nat := count_byte "010"%char s.

(** The text of the record [table] under the name [name], as the
    renderers read it from its row: the stringified value of the field
    of that name, the empty string when the record has no such field. *)
Definition cell_text (table : TableStruct) (name : string) : string :=
  match FieldByName (Fields table) name with
  | Some fv => stringify (FieldValue fv)
  | None => ""
  end.

(** The width of a whole line of the text table, line feed included:
    the columns, three for each separator, one for the line feed. *)
Definition line_width (data : list (gmap string string))
    (fieldMap : gmap string string) (fields : list string) : nat :=
  sum_list (map (column_width data fieldMap) fields)
  + 3 * (length fields - 1) + 1.

(** Two maps read the same under every selected name. *)
Definition agree_on (fields : list string) (m m' : gmap string string) : Prop :=
  forall field, field ∈ fields -> map_index m field = map_index m' field.

(** A line of the text table from the width of each column and the text
    of each cell: the cells left-justified, joined by the separator, and
    the line feed. *)
Definition table_line (fields : list string) (wid : string -> nat)
    (text : string -> string) : string :=
  GoString.Join (map (fun field => fmt.padString (wid field) (text field)) fields) " | "
  +:+ GoString.newline.

(** No selected text of the map holds a line feed. *)
Definition single_line (fields : list string) (m : gmap string string) : Prop :=
  forall field, field ∈ fields -> line_feeds (map_index m field) = 0.

(** * Properties *)

(** ** Strings *)

Section string_facts.
Implicit Types s t : string.

Lemma str_app_nil_l t : "" +:+ t = t.
Proof. reflexivity. Qed.

Lemma str_app_cons c s t : String.String c s +:+ t = String.String c (s +:+ t).
Proof. reflexivity. Qed.

Lemma str_app_empty_r s : s +:+ "" = s.
Proof. induction s as [|c s IH]; [done|]. by rewrite str_app_cons, IH. Qed.

Lemma str_app_assoc s t u : (s +:+ t) +:+ u = s +:+ (t +:+ u).
Proof. induction s as [|c s IH]; [done|]. by rewrite !str_app_cons, IH. Qed.

Lemma len_app s t : GoString.len (s +:+ t) = GoString.len s + GoString.len t.
Proof.
  unfold GoString.len. induction s as [|c s IH]; [done|].
  rewrite str_app_cons. simpl. by rewrite IH.
Qed.

Lemma len_Repeat_char (c : ascii) n :
  GoString.len (GoString.Repeat (String.String c "") n) = n.
Proof.
  induction n as [|n IH]; [done|]. simpl. rewrite len_app, IH. done.
Qed.

Lemma get_app_l s t i :
  i < String.length s -> String.get i (s +:+ t) = String.get i s.
Proof.
  revert i. induction s as [|c s IH]; intros i Hi; [simpl in Hi; lia|].
  rewrite str_app_cons. destruct i as [|i]; [done|]. simpl in *. apply IH. lia.
Qed.

Lemma get_app_r s t i :
  String.get (String.length s + i) (s +:+ t) = String.get i t.
Proof. induction s as [|c s IH]; [done|]. rewrite str_app_cons. exact IH. Qed.

Lemma get_None s i : String.length s <= i -> String.get i s = None.
Proof.
  revert i. induction s as [|c s IH]; simpl; intros i Hi; [by destruct i|].
  destruct i as [|i]; [lia|]. apply IH. lia.
Qed.
End string_facts.

(** ** Runes and padding *)

Import utf8.

Lemma accepts_app_l lo hi i rest t :
  i < String.length rest -> accepts lo hi i (rest +:+ t) = accepts lo hi i rest.
Proof. intros Hi. unfold accepts, GoString.byte_at. by rewrite get_app_l. Qed.

Lemma accepts_beyond lo hi i rest :
  String.length rest <= i -> accepts lo hi i rest = false.
Proof. intros Hi. unfold accepts, GoString.byte_at. by rewrite get_None. Qed.

Lemma accepts_boundary lo hi rest t :
  (0x80 <= lo)%N -> ascii_head t ->
  accepts lo hi (String.length rest) (rest +:+ t) = false.
Proof.
  intros Hlo Ht. unfold accepts, GoString.byte_at.
  replace (String.length rest) with (String.length rest + 0) by lia.
  rewrite get_app_r. destruct t as [|c t]; [done|]. simpl in *.
  apply andb_false_intro1. apply N.leb_gt. lia.
Qed.

Lemma acceptRange_lo x : (0x80 <= (acceptRange x).1)%N.
Proof. destruct x; simpl; unfold locb; lia. Qed.

Lemma rune_width_bounds c rest :
  1 <= rune_width c rest <= S (String.length rest).
Proof.
  unfold rune_width.
  destruct (first (N_of_ascii c)); simpl; try lia;
    repeat (case_match; try lia);
    repeat match goal with H : (_ <? _) = false |- _ => apply Nat.ltb_ge in H end; lia.
Qed.

Lemma rune_width_app c rest t :
  ascii_head t -> rune_width c (rest +:+ t) = rune_width c rest.
Proof.
  intros Ht. unfold rune_width.
  pose proof (acceptRange_lo (first (N_of_ascii c))) as Hlo.
  destruct (first (N_of_ascii c)) eqn:Hx; try done; simpl size_of; simpl Nat.sub; simpl Nat.eqb.
  all: destruct (String.length rest <? _) eqn:Hlen;
        [apply Nat.ltb_lt in Hlen | apply Nat.ltb_ge in Hlen].
  all: try (assert ((String.length (rest +:+ t) <? _) = false) as ->
              by (apply Nat.ltb_ge; pose proof (len_app rest t) as E; unfold GoString.len in E; rewrite E; lia);
            rewrite ?accepts_app_l by lia; done).
  all: match goal with
       | Hlo : (_ <= (acceptRange ?x).1)%N |- _ =>
           pose proof (accepts_boundary _ (acceptRange x).2 rest t Hlo Ht) as B0
       end;
       pose proof (accepts_boundary locb hicb rest t ltac:(unfold locb; lia) Ht) as B1;
       destruct rest as [|c1 [|c2 [|c3 r]]]; simpl in Hlen; try lia;
       simpl String.length in B0, B1; rewrite ?B0, ?B1; simpl;
       repeat case_match; done.
Qed.

Lemma count_from_le skip s : count_from skip s <= String.length s.
Proof.
  revert skip. induction s as [|c s IH]; intros skip; simpl; [done|].
  destruct skip as [|k].
  - specialize (IH (rune_width c s - 1)). lia.
  - specialize (IH k). lia.
Qed.

Lemma count_from_app s : forall skip t,
  ascii_head t -> skip <= String.length s ->
  count_from skip (s +:+ t) = count_from skip s + count_from 0 t.
Proof.
  induction s as [|c s IH]; intros skip t Ht Hskip.
  - simpl in *. assert (skip = 0) as -> by lia. done.
  - rewrite str_app_cons. simpl in *. destruct skip as [|k].
    + rewrite rune_width_app by done. rewrite IH; [done..|].
      pose proof (rune_width_bounds c s). lia.
    + apply IH; [done|lia].
Qed.

Lemma count_from_blanks n : count_from 0 (GoString.Repeat " " n) = n.
Proof.
  induction n as [|n IH]; [done|]. simpl.
  change (" " +:+ ?x) with (String.String " "%char x). simpl.
  by rewrite str_app_nil_l, IH.
Qed.

Lemma ascii_head_blanks n : ascii_head (GoString.Repeat " " n).
Proof. destruct n; simpl; [done|]. change (" " +:+ ?x) with (String.String " "%char x). simpl. lia. Qed.

Lemma RuneCount_le_len s : RuneCountInString s <= GoString.len s.
Proof. apply count_from_le. Qed.

Lemma RuneCount_padString wid s :
  RuneCountInString s <= wid -> RuneCountInString (fmt.padString wid s) = wid.
Proof.
  intros Hle. unfold fmt.padString, RuneCountInString.
  rewrite count_from_app by (auto using ascii_head_blanks; lia).
  rewrite count_from_blanks. unfold RuneCountInString in Hle. lia.
Qed.

Section for_range_facts.
Context {A B : Type}.

Lemma for_range_fill (g : A -> B) (xs : list A) : forall (pre rest : list B),
  length rest = length xs ->
  for_range (fun i x l => <[i := g x]> l) (length pre) xs (pre ++ rest)
  = pre ++ map g xs.
Proof.
  induction xs as [|x xs IH]; intros pre rest Hlen; simpl.
  - destruct rest; [done|discriminate].
  - destruct rest as [|b rest]; [discriminate|]. simpl in Hlen.
    rewrite insert_app_r_alt by lia. rewrite Nat.sub_diag. simpl.
    replace (S (length pre)) with (length (pre ++ [g x])) by (rewrite length_app; simpl; lia).
    rewrite (cons_middle (g x) pre rest), app_assoc.
    rewrite IH by lia. by rewrite <- app_assoc.
Qed.

Lemma for_range_make (g : A -> B) (zero : B) (xs : list A) :
  for_range (fun i x l => <[i := g x]> l) 0 xs (make zero (length xs)) = map g xs.
Proof.
  apply (for_range_fill g xs [] (make zero (length xs))).
  unfold make. by rewrite length_replicate.
Qed.
End for_range_facts.

Section renderer_facts.
Variable data : list (gmap string string).
Variable fieldMap : gmap string string.
Variable fields : list string.

Lemma header_widths_map :
  header_widths fieldMap fields
  = map (fun field => GoString.len (map_index fieldMap field)) fields.
Proof. apply for_range_make. Qed.

Lemma finter_map : finter fieldMap fields = map (map_index fieldMap) fields.
Proof. apply for_range_make. Qed.

Lemma values_map row : values fields row = map (map_index row) fields.
Proof. apply for_range_make. Qed.

Lemma scan_row_inner r : forall fs prow pcw rrow rcw,
  length prow = length pcw -> length rrow = length fs -> length rcw = length fs ->
  for_range (fun i field (acc : list string * list nat) =>
               let '(row, colWidth) := acc in
               let row := <[i := map_index r field]> row in
               if at_ colWidth i <? GoString.len (map_index r field)
               then (row, <[i := GoString.len (map_index r field)]> colWidth)
               else (row, colWidth))
    (length prow) fs (prow ++ rrow, pcw ++ rcw)
  = (prow ++ map (map_index r) fs, pcw ++ zip_with (widen r) fs rcw).
Proof.
  induction fs as [|field fs IH]; intros prow pcw rrow rcw Hp Hr Hc; simpl.
  - destruct rrow, rcw; try discriminate. done.
  - destruct rrow as [|s rrow]; [discriminate|].
    destruct rcw as [|w rcw]; [discriminate|]. simpl in Hr, Hc.
    assert (at_ (pcw ++ w :: rcw) (length prow) = w) as ->.
    { unfold at_. rewrite Hp, lookup_app_r by lia. by rewrite Nat.sub_diag. }
    rewrite insert_app_r_alt by lia. rewrite Nat.sub_diag. simpl.
    assert ((if w <? GoString.len (map_index r field)
             then (prow ++ map_index r field :: rrow,
                   <[length prow := GoString.len (map_index r field)]> (pcw ++ w :: rcw))
             else (prow ++ map_index r field :: rrow, pcw ++ w :: rcw))
            = ((prow ++ [map_index r field]) ++ rrow, (pcw ++ [widen r field w]) ++ rcw)) as ->.
    { rewrite <- !app_assoc. simpl. unfold widen.
      destruct (w <? GoString.len (map_index r field)) eqn:E.
      - apply Nat.ltb_lt in E. rewrite Hp, insert_app_r_alt by lia.
        rewrite Nat.sub_diag. simpl. do 3 f_equal. lia.
      - apply Nat.ltb_ge in E. do 3 f_equal. lia. }
    replace (S (length prow)) with (length (prow ++ [map_index r field]))
      by (rewrite length_app; simpl; lia).
    rewrite IH; [|rewrite !length_app; simpl; lia|lia|lia].
    by rewrite <- !app_assoc.
Qed.

Lemma scan_row_eq r table cw :
  length cw = length fields ->
  scan_row fields r (table, cw)
  = (table ++ [map (map_index r) fields], zip_with (widen r) fields cw).
Proof.
  intros Hlen. unfold scan_row.
  pose proof (scan_row_inner r fields [] [] (make "" (length fields)) cw) as E.
  simpl in E. rewrite E; [done|done|by unfold make; rewrite length_replicate|done].
Qed.

Lemma zip_with_widen_map r (g : string -> nat) (fs : list string) :
  zip_with (widen r) fs (map g fs) = map (fun field => widen r field (g field)) fs.
Proof. induction fs as [|f fs IH]; simpl; [done|]. by rewrite IH. Qed.

Lemma scan_fold (rows : list (gmap string string)) : forall table (g : string -> nat),
  foldl (fun st r => scan_row fields r st) (table, map g fields) rows
  = (table ++ cells rows fields,
     map (fun field => foldl (fun w r => widen r field w) (g field) rows) fields).
Proof.
  induction rows as [|r rows IH]; intros table g; cbn [foldl].
  - simpl. by rewrite app_nil_r.
  - rewrite scan_row_eq by (by rewrite length_map).
    rewrite zip_with_widen_map, IH. by rewrite <- app_assoc.
Qed.

Lemma foldl_widen field (rows : list (gmap string string)) : forall a,
  foldl (fun w r => widen r field w) a rows
  = Nat.max a (max_list_with (fun r => GoString.len (map_index r field)) rows).
Proof.
  induction rows as [|r rows IH]; intros a; simpl; [lia|].
  rewrite IH. unfold widen. lia.
Qed.

Lemma colWidth_eq :
  colWidth data fieldMap fields = map (column_width data fieldMap) fields.
Proof.
  unfold colWidth, scan_data. rewrite header_widths_map, scan_fold. simpl.
  apply map_ext. intros field. by rewrite foldl_widen.
Qed.

Lemma scan_data_table : (scan_data data fieldMap fields).1 = cells data fields.
Proof. unfold scan_data. by rewrite header_widths_map, scan_fold. Qed.
End renderer_facts.

Lemma padString_render_cell wid (m : gmap string string) field :
  fmt.padString wid (map_index m field) = render_cell wid m field.
Proof.
  unfold render_cell, map_index. destruct (m !! field) as [s|]; simpl; [done|].
  unfold fmt.padString. simpl. by rewrite str_app_nil_l, Nat.sub_0_r.
Qed.

Lemma Sprintf_columns (ws : list nat) : forall args : list string,
  Forall (fun w => fmt.width_refused w = false) ws ->
  length args = length ws ->
  Sprintf (Join_format (map (fun w => [LeftString w]) ws) [Literal " | "]
           ++ [Literal GoString.newline]) args
  = GoString.Join (zip_with fmt.padString ws args) " | " +:+ GoString.newline.
Proof.
  induction ws as [|w ws IH]; intros args Hfit Hlen.
  - destruct args; [|discriminate]. simpl. by rewrite str_app_empty_r.
  - destruct args as [|a args]; [discriminate|]. simpl in Hlen.
    apply Forall_cons in Hfit as [Hw Hfit].
    destruct ws as [|w2 ws].
    + destruct args; [|discriminate]. simpl. rewrite Hw. simpl.
      by rewrite str_app_empty_r.
    + destruct args as [|a2 args]; [discriminate|].
      specialize (IH (a2 :: args) Hfit ltac:(simpl in *; lia)).
      cbn [map Join_format app Sprintf zip_with GoString.Join] in *.
      rewrite Hw, IH. by rewrite !str_app_assoc.
Qed.

Lemma foldl_append {A} (f : A -> string) (l : list A) : forall acc,
  foldl (fun out x => out +:+ f x) acc l = acc +:+ GoString.Concat (map f l).
Proof.
  induction l as [|x l IH]; intros acc; simpl.
  - by rewrite str_app_empty_r.
  - by rewrite IH, str_app_assoc.
Qed.

Section lines.
Variable data : list (gmap string string).
Variable fieldMap : gmap string string.
Variable fields : list string.

Lemma fstring_eq :
  fstring data fieldMap fields
  = Join_format (map (fun w => [LeftString w])
                   (map (column_width data fieldMap) fields)) [Literal " | "]
    ++ [Literal GoString.newline].
Proof.
  unfold fstring, fstrings. rewrite colWidth_eq. f_equal. f_equal.
  pose proof (for_range_fill (fun w => [LeftString w])
                (map (column_width data fieldMap) fields) []
                (make [] (length fields))) as E.
  simpl in E. apply E. unfold make. by rewrite length_replicate, length_map.
Qed.

Lemma widths_fit_columns :
  widths_fit data fieldMap fields
  <-> forall field, field ∈ fields ->
        fmt.width_refused (column_width data fieldMap field) = false.
Proof.
  unfold widths_fit. rewrite colWidth_eq, Forall_forall. split.
  - intros Hfit field Hin. apply Hfit. apply list_elem_of_fmap. eauto.
  - intros Hfit w Hw. apply list_elem_of_fmap in Hw as (field & -> & Hin). eauto.
Qed.

Lemma headerLine_Sprintf :
  headerLine data fieldMap fields
  = Sprintf (fstring data fieldMap fields) (map (map_index fieldMap) fields).
Proof. unfold headerLine. by rewrite finter_map. Qed.

Lemma print_rows_Sprintf :
  print_rows data fieldMap fields
  = GoString.Concat
      (map (fun row => Sprintf (fstring data fieldMap fields)
                         (map (map_index row) fields)) data).
Proof.
  unfold print_rows.
  rewrite (foldl_append (fun row => Sprintf (fstring data fieldMap fields) (values fields row))).
  rewrite str_app_nil_l. f_equal. apply map_ext. intros row.
  by rewrite values_map.
Qed.

Lemma Sprintf_fstring (m : gmap string string) :
  widths_fit data fieldMap fields ->
  Sprintf (fstring data fieldMap fields) (map (map_index m) fields)
  = render_line data fieldMap fields m.
Proof.
  intros Hfit. unfold widths_fit in Hfit. rewrite colWidth_eq in Hfit.
  rewrite fstring_eq, Sprintf_columns by (done || by rewrite !length_map).
  unfold render_line. do 2 f_equal. clear Hfit.
  induction fields as [|f fs IH]; simpl; [done|].
  by rewrite IH, padString_render_cell.
Qed.

Lemma headerLine_eq :
  widths_fit data fieldMap fields ->
  headerLine data fieldMap fields = render_line data fieldMap fields fieldMap.
Proof. intros Hfit. by rewrite headerLine_Sprintf, Sprintf_fstring. Qed.

Lemma print_rows_eq :
  widths_fit data fieldMap fields ->
  print_rows data fieldMap fields
  = GoString.Concat (map (render_line data fieldMap fields) data).
Proof.
  intros Hfit. rewrite print_rows_Sprintf. f_equal. apply map_ext. intros row.
  by apply Sprintf_fstring.
Qed.

Lemma generateTable_lines :
  widths_fit data fieldMap fields ->
  generateTable data fieldMap fields
  = render_line data fieldMap fields fieldMap
    +:+ underline data fieldMap fields +:+ GoString.newline
    +:+ GoString.Concat (map (render_line data fieldMap fields) data).
Proof.
  intros Hfit. unfold generateTable.
  by rewrite headerLine_eq, print_rows_eq, !str_app_assoc.
Qed.
End lines.

(** At a width [fmt] refuses, in the first column, nothing is formatted:
    the line is the error text of [fmt] and the arguments. *)
Lemma Sprintf_refused (wid : nat) (rest : format) (args : list string) :
  fmt.width_refused wid = true ->
  Sprintf (LeftString wid :: rest) args = "%!(NOVERB)" +:+ fmt.extra args.
Proof. intros Hw. simpl. by rewrite Hw. Qed.

Lemma Sprintf_not_empty (f : format) : forall args : list string,
  0 < GoString.len (Sprintf (f ++ [Literal GoString.newline]) args).
Proof.
  induction f as [|d f IH]; intros args.
  - cbn [app Sprintf]. rewrite len_app. simpl. lia.
  - destruct d as [lit|wid]; cbn [app Sprintf].
    + rewrite len_app. specialize (IH args). lia.
    + destruct (fmt.width_refused wid).
      * rewrite len_app. simpl. lia.
      * destruct args as [|a args]; rewrite len_app.
        -- specialize (IH []). lia.
        -- specialize (IH args). lia.
Qed.

Lemma width_refused_false_lt (wid : nat) :
  fmt.width_refused wid = false -> (N.of_nat wid < 10000010)%N.
Proof. unfold fmt.width_refused. apply N.leb_gt. Qed.

Lemma width_refused_true_le (wid : nat) :
  fmt.width_refused wid = true -> (10000010 <= N.of_nat wid)%N.
Proof. unfold fmt.width_refused. apply N.leb_le. Qed.

Lemma huge_refused : fmt.width_refused Samples.huge = true.
Proof.
  unfold fmt.width_refused, Samples.huge. rewrite N2Nat.id. reflexivity.
Qed.

(** A table of one column whose header is too long for [fmt]: the header
    line and the line of a row are error texts of [fmt], without padding
    and without a line feed. *)
Lemma overwide_column (text : string) (row : gmap string string) :
  fmt.width_refused (GoString.len text) = true ->
  colWidth [row] {["Val" := text]} ["Val"]
  = [Nat.max (GoString.len text) (Nat.max (GoString.len (map_index row "Val")) 0)]
  /\ headerLine [row] {["Val" := text]} ["Val"]
     = "%!(NOVERB)%!(EXTRA string=" +:+ text +:+ ")"
  /\ (GoString.len (map_index row "Val") <= GoString.len text ->
      print_rows [row] {["Val" := text]} ["Val"]
      = "%!(NOVERB)%!(EXTRA string=" +:+ map_index row "Val" +:+ ")").
Proof.
  intros Hw.
  assert (map_index ({["Val" := text]} : gmap string string) "Val" = text) as Hfm.
  { unfold map_index. by rewrite lookup_singleton_eq. }
  assert (column_width [row] {["Val" := text]} "Val"
          = Nat.max (GoString.len text)
              (Nat.max (GoString.len (map_index row "Val")) 0)) as Hcw.
  { unfold column_width. by rewrite Hfm. }
  split; [by rewrite colWidth_eq; cbn [map]; rewrite Hcw|]. split.
  - rewrite headerLine_Sprintf, fstring_eq. cbn [map Join_format app].
    rewrite Hcw, Hfm. rewrite Sprintf_refused; [done|].
    apply Bool.not_false_iff_true. intros Hno.
    apply width_refused_false_lt in Hno. apply width_refused_true_le in Hw. lia.
  - intros Hle. rewrite print_rows_Sprintf, fstring_eq. cbn [map Join_format app].
    rewrite Hcw. rewrite Sprintf_refused.
    + cbn [GoString.Concat foldr]. by rewrite str_app_empty_r.
    + apply Bool.not_false_iff_true. intros Hno.
      apply width_refused_false_lt in Hno. apply width_refused_true_le in Hw. lia.
Qed.

Lemma overwide_missing_entry (text : string) :
  fmt.width_refused (GoString.len text) = true ->
  colWidth [∅] {["Val" := text]} ["Val"] = [GoString.len text]
  /\ print_rows [∅] {["Val" := text]} ["Val"] = "%!(NOVERB)%!(EXTRA string=)"
  /\ print_rows [∅] {["Val" := text]} ["Val"]
     <> GoString.Repeat " " (GoString.len text) +:+ GoString.newline.
Proof.
  intros Hw. destruct (overwide_column text ∅ Hw) as (Hcw & _ & Hrows).
  assert (map_index (∅ : gmap string string) "Val" = "") as Hrow by done.
  rewrite Hrow in Hcw, Hrows. simpl in Hcw, Hrows.
  rewrite Nat.max_0_r in Hcw. specialize (Hrows ltac:(lia)).
  split; [done|]. split; [done|].
  rewrite Hrows. intros E. apply (f_equal GoString.len) in E.
  rewrite !len_app, len_Repeat_char in E. simpl in E.
  apply width_refused_true_le in Hw. lia.
Qed.

Lemma len_huge_text : GoString.len (GoString.Repeat "a" Samples.huge) = Samples.huge.
Proof. apply len_Repeat_char. Qed.

Lemma huge_text_refused :
  fmt.width_refused (GoString.len (GoString.Repeat "a" Samples.huge)) = true.
Proof. rewrite len_huge_text. apply huge_refused. Qed.

Lemma width_refused_false (wid : nat) :
  fmt.width_refused wid = false <-> (N.of_nat wid < 10000010)%N.
Proof. unfold fmt.width_refused. apply N.leb_gt. Qed.

(** ** The introspector *)

Lemma Sprintf_d_decimal n : decimal_of n (fmt.Sprintf_d n).
Proof.
  unfold decimal_of, fmt.Sprintf_d. apply NilZero.isi.
  - destruct n; simpl; try discriminate. intros [= E]. by apply Unsigned.to_uint_nonnil in E.
  - destruct n; simpl; try discriminate. intros [= E]. by apply Unsigned.to_uint_nonnil in E.
Qed.

Lemma decimal_of_unique n s : decimal_of n s -> s = fmt.Sprintf_d n.
Proof. unfold decimal_of, fmt.Sprintf_d. intros E. symmetry. by apply NilZero.sis. Qed.

Lemma stringify_stringified v : ~ is_uintptr v -> stringified v (stringify v).
Proof.
  intros Hno.
  destruct v as [[]|k i|k u|s|k]; try destruct k; simpl;
    try (constructor; try apply Sprintf_d_decimal; done).
  exfalso. apply Hno. unfold is_uintptr. eauto.
Qed.

Lemma stringify_uintptr u : stringify (OtherValue (KUintptr u)) = NOT_SUPPORTED.
Proof. reflexivity. Qed.

Lemma not_decimal_sentinel u : ~ decimal_of u "NO_SUPPORT".
Proof. unfold decimal_of. discriminate. Qed.

Section FieldByName_facts.
Implicit Types (fs : list StructField) (f fv : StructField) (name : string).

Lemma FieldByName_Some fs name fv :
  FieldByName fs name = Some fv -> Name fv = name /\ fv ∈ fs.
Proof.
  induction fs as [|g fs IH]; simpl; [done|].
  case_decide as E.
  - intros [= <-]. split; [done|]. by left.
  - intros [? ?]%IH. split; [done|]. by right.
Qed.

Lemma FieldByName_elem fs f : f ∈ fs -> is_Some (FieldByName fs (Name f)).
Proof.
  induction 1 as [f fs|f g fs Hin IH]; simpl.
  - rewrite decide_True by done. eauto.
  - case_decide; eauto.
Qed.
End FieldByName_facts.

Section TableRow_facts.
Variable table : TableStruct.

Lemma TableRow_loop_resolved todo : forall row headers,
  Forall (resolves table) todo ->
  TableRow_loop table todo row headers
  = (foldl (row_step table) row todo, foldl (headers_step table) headers todo, None).
Proof.
  induction todo as [|f todo IH]; intros row headers Hall; simpl; [done|].
  apply Forall_cons in Hall as [Hf Hall]. unfold resolves in Hf.
  destruct (GetHeader table (Name f)) as [h oe] eqn:Eh. simpl in Hf. subst oe.
  assert (row_step table row f
          = match FieldByName (Fields table) (Name f) with
            | Some fv => <[Name f := stringify (FieldValue fv)]> row
            | None => row
            end) as Estep by done.
  assert (headers_step table headers f = <[Name f := h]> headers) as Ehdr
    by (unfold headers_step; by rewrite Eh).
  destruct (FieldByName (Fields table) (Name f));
    rewrite (IH _ _ Hall), Estep, Ehdr; done.
Qed.

Lemma TableRow_loop_abort pre f post h e : forall row headers,
  Forall (resolves table) pre ->
  GetHeader table (Name f) = (h, Some e) ->
  TableRow_loop table (pre ++ f :: post) row headers
  = (foldl (row_step table) row pre, foldl (row_step table) row pre, Some e).
Proof.
  induction pre as [|g pre IH]; intros row headers Hall Hf; simpl.
  - by rewrite Hf.
  - apply Forall_cons in Hall as [Hg Hall]. unfold resolves in Hg.
    destruct (GetHeader table (Name g)) as [hg oe] eqn:Eh. simpl in Hg. subst oe.
    assert (row_step table row g
            = match FieldByName (Fields table) (Name g) with
              | Some fv => <[Name g := stringify (FieldValue fv)]> row
              | None => row
              end) as Estep by done.
    destruct (FieldByName (Fields table) (Name g));
      rewrite (IH _ _ Hall Hf), Estep; done.
Qed.

Lemma row_fold_lookup done name : forall row,
  foldl (row_step table) row done !! name
  = match (if decide (name ∈ map Name done)
           then FieldByName (Fields table) name else None) with
    | Some fv => Some (stringify (FieldValue fv))
    | None => row !! name
    end.
Proof.
  induction done as [|f done IH]; intros row; cbn [foldl map].
  - rewrite decide_False; [done|]. apply not_elem_of_nil.
  - rewrite IH. unfold row_step.
    destruct (decide (name ∈ map Name done)) as [Hin|Hin].
    + rewrite decide_True by (by right).
      destruct (FieldByName (Fields table) name) as [fv|] eqn:E; [done|].
      destruct (FieldByName (Fields table) (Name f)) as [fv'|] eqn:E'; [|done].
      rewrite lookup_insert_ne; [done|]. intros Heq. congruence.
    + destruct (decide (Name f = name)) as [<-|Hne].
      * rewrite decide_True by (by left).
        destruct (FieldByName (Fields table) (Name f)) as [fv|]; [|done].
        by rewrite lookup_insert_eq.
      * rewrite decide_False.
        2:{ intros [?|?]%elem_of_cons; congruence. }
        destruct (FieldByName (Fields table) (Name f)) as [fv|]; [|done].
        by rewrite lookup_insert_ne.
Qed.
End TableRow_facts.

(** ** The entry points *)

Section first_failure.
Context {A : Type} (P : A -> Prop) `{forall x, Decision (P x)}.

(** A list either satisfies [P] throughout or splits at the first
    element that does not. *)
Lemma first_failure (l : list A) :
  Forall P l \/ exists pre x post, l = pre ++ x :: post /\ Forall P pre /\ ~ P x.
Proof.
  induction l as [|x l IH]; [by left|].
  destruct (decide (P x)) as [Hx|Hx].
  - destruct IH as [Hall|(pre & y & post & -> & Hpre & Hy)].
    + left. by constructor.
    + right. exists (x :: pre), y, post. repeat split; [by constructor|done].
  - right. exists [], x, l. repeat split; [constructor|done].
Qed.
End first_failure.

Lemma TableRow_resolved table :
  Forall (resolves table) (Fields table) ->
  TableRow table = (row_after table (Fields table), headers_after table (Fields table), None).
Proof. intros Hall. by apply TableRow_loop_resolved. Qed.

Lemma TableRow_unresolved table pre f post :
  Fields table = pre ++ f :: post -> Forall (resolves table) pre -> ~ resolves table f ->
  exists e, (GetHeader table (Name f)).2 = Some e /\
            TableRow table = (row_after table pre, row_after table pre, Some e).
Proof.
  intros Hsplit Hpre Hf. unfold resolves in Hf.
  destruct (GetHeader table (Name f)) as [h [e|]] eqn:Eh; [|done].
  exists e. split; [done|]. unfold TableRow. rewrite Hsplit.
  by apply (TableRow_loop_abort table pre f post h e).
Qed.

Lemma introspects_iff table :
  introspects table <-> Forall (resolves table) (Fields table).
Proof.
  unfold introspects. split.
  - intros Hok. destruct (first_failure (resolves table) (Fields table))
      as [Hall|(pre & f & post & Hsplit & Hpre & Hf)]; [done|].
    destruct (TableRow_unresolved table pre f post Hsplit Hpre Hf) as (e & _ & E).
    rewrite E in Hok. discriminate.
  - intros Hall. by rewrite TableRow_resolved.
Qed.

Section loops.
Implicit Types (tables : list TableStruct) (table : list (gmap string string)).

Lemma GenerateTable_loop_ok tables : forall table headers,
  Forall introspects tables ->
  GenerateTable_loop tables table headers
  = (table ++ map row_of tables, default headers (headers_of <$> last tables), None).
Proof.
  induction tables as [|item tables IH]; intros table headers Hall; simpl.
  - by rewrite app_nil_r.
  - apply Forall_cons in Hall as [Hitem Hall]. unfold introspects in Hitem.
    destruct (TableRow item) as [[row h] err] eqn:E. simpl in Hitem. subst err.
    rewrite IH by done. rewrite <- app_assoc. simpl.
    unfold row_of at 2. rewrite E. simpl. f_equal. f_equal.
    destruct tables as [|item2 tables]; simpl; [by unfold headers_of; rewrite E|].
    destruct (last (item2 :: tables)) eqn:El; [done|].
    apply last_None in El. discriminate.
Qed.

Lemma GenerateTable_loop_err tables item post e : forall table headers,
  Forall introspects tables -> (TableRow item).2 = Some e ->
  (GenerateTable_loop (tables ++ item :: post) table headers).2 = Some e.
Proof.
  induction tables as [|it tables IH]; intros table headers Hall Hitem; simpl.
  - destruct (TableRow item) as [[row h] err]. simpl in Hitem. by subst err.
  - apply Forall_cons in Hall as [Hit Hall]. unfold introspects in Hit.
    destruct (TableRow it) as [[row h] err]. simpl in Hit. subst err.
    by apply IH.
Qed.

Lemma GenerateCSV_loop_eq tables : forall table headers,
  GenerateCSV_loop tables table
  = ((GenerateTable_loop tables table headers).1.1,
     (GenerateTable_loop tables table headers).2).
Proof.
  induction tables as [|item tables IH]; intros table headers; simpl; [done|].
  destruct (TableRow item) as [[row h] [e|]]; [done|]. apply IH.
Qed.
End loops.

Section csv_facts.
Context {World : Type} `{CsvWriter World}.

Lemma generateCSV_loop_cells (data : list (gmap string string)) fields : forall w : World,
  generateCSV_loop data fields w = write_all (cells data fields) w.
Proof.
  induction data as [|row data IH]; intros w; simpl; [done|].
  rewrite (for_range_make (map_index row) "" fields).
  destruct (csv_Write (map (map_index row) fields) w) as [w' [e|]]; [done|]. apply IH.
Qed.

(** Whatever the writer reports, [GenerateCSV] returns the error of the
    introspection loop. *)
Lemma GenerateCSV_error tables fields (w : World) :
  (GenerateCSV tables fields w).2 = (GenerateCSV_loop tables []).2.
Proof.
  unfold GenerateCSV. destruct (GenerateCSV_loop tables []) as [table [e|]]; [done|].
  by destruct (generateCSV table fields w).
Qed.
End csv_facts.

Lemma FieldByName_NoDup (fs : list StructField) (f : StructField) :
  NoDup (map Name fs) -> f ∈ fs -> FieldByName fs (Name f) = Some f.
Proof.
  induction fs as [|g fs IH]; intros Hnd Hin; [by apply elem_of_nil in Hin|].
  simpl in *. apply NoDup_cons in Hnd as [Hg Hnd].
  apply elem_of_cons in Hin as [->|Hin]; [by rewrite decide_True|].
  rewrite decide_False; [by apply IH|].
  intros E. apply Hg. rewrite E. apply list_elem_of_fmap. eauto.
Qed.

Lemma len_le_column_width (data : list (gmap string string))
    (fieldMap : gmap string string) (field : string) :
  GoString.len (map_index fieldMap field) <= column_width data fieldMap field
  /\ forall r, r ∈ data ->
       GoString.len (map_index r field) <= column_width data fieldMap field.
Proof.
  unfold column_width. split; [lia|]. intros r Hr.
  induction Hr as [r data|r r' data Hr IH]; simpl; lia.
Qed.

Lemma RuneCount_render_cell wid (m : gmap string string) field :
  GoString.len (map_index m field) <= wid ->
  RuneCountInString (render_cell wid m field) = wid.
Proof.
  intros Hle. rewrite <- padString_render_cell. apply RuneCount_padString.
  pose proof (RuneCount_le_len (map_index m field)). lia.
Qed.

Lemma unresolved_field_error (item : TableStruct) :
  ~ introspects item ->
  exists e f, (TableRow item).2 = Some e /\ f ∈ Fields item
              /\ (GetHeader item (Name f)).2 = Some e.
Proof.
  intros Hno.
  destruct (first_failure (resolves item) (Fields item))
    as [Hall|(pre & f & post & Hsplit & Hpre & Hf)].
  { by apply introspects_iff in Hall. }
  destruct (TableRow_unresolved item pre f post Hsplit Hpre Hf) as (e & He & E).
  exists e, f. rewrite E. split; [done|]. split; [|done].
  rewrite Hsplit. set_solver.
Qed.

(** ** The samples, run *)

Example people_table :
  GenerateTable Samples.people ["Name"; "Age"]
  = ("Name  | Age" +:+ GoString.newline +:+
     "===========" +:+ GoString.newline +:+
     "Alice | 30 " +:+ GoString.newline +:+
     "Bob   | 5  " +:+ GoString.newline, None).
Proof. vm_compute. reflexivity. Qed.

Example last_header_wins :
  GenerateTable [Samples.labelled "First" "x"; Samples.labelled "Last" "y"] ["Val"]
  = ("Last" +:+ GoString.newline +:+
     "====" +:+ GoString.newline +:+
     "x   " +:+ GoString.newline +:+
     "y   " +:+ GoString.newline, None).
Proof. vm_compute. reflexivity. Qed.

Example unknown_selection :
  GenerateTable Samples.people ["Name"; "Town"]
  = ("Name  | " +:+ GoString.newline +:+
     "========" +:+ GoString.newline +:+
     "Alice | " +:+ GoString.newline +:+
     "Bob   | " +:+ GoString.newline, None).
Proof. vm_compute. reflexivity. Qed.

(** Widths are byte counts and padding counts runes: a header of one
    accented letter gets a column of width two and one blank. *)
Example accented_header :
  generateTable [] {["Val" := Samples.e_acute]} ["Val"]
  = Samples.e_acute +:+ " " +:+ GoString.newline +:+ "===" +:+ GoString.newline.
Proof. vm_compute. reflexivity. Qed.

Example stringify_samples :
  stringify (StringValue "Alice") = "Alice"
  /\ stringify (IntValue KInt8 (-5)) = "-5"
  /\ stringify (IntValue KInt64 0) = "0"
  /\ stringify (UintValue KUint64 18446744073709551615) = "18446744073709551615"
  /\ stringify (BoolValue true) = "true"
  /\ stringify (BoolValue false) = "false"
  /\ stringify (OtherValue KFloat64) = "NO_SUPPORT"
  /\ stringify (OtherValue KStruct) = "NO_SUPPORT"
  /\ stringify (OtherValue (KUintptr 7)) = "NO_SUPPORT".
Proof. repeat split; vm_compute; reflexivity. Qed.

(** * The claims *)

(** C1, on the code: the error of the writer does not reach the caller of
    [GenerateCSV].  The stream takes the record of Alice and rejects the
    record of Bob: [generateCSV] returns the write error, the record
    already written stays written, and [GenerateCSV] returns [nil]. *)
Theorem GenerateCSV_loses_write_error :
  generateCSV (map row_of Samples.people) ["Name"; "Age"] (Samples.pipe_with_room 1)
  = ({| Samples.taken := [["Alice"; "30"]]; Samples.room := 0 |},
     Some "write /dev/stdout: broken pipe")
  /\ GenerateCSV Samples.people ["Name"; "Age"] (Samples.pipe_with_room 1)
     = ({| Samples.taken := [["Alice"; "30"]]; Samples.room := 0 |}, None).
Proof. split; vm_compute; reflexivity. Qed.

(** C2, as stated, fails: the header of [Age] does not resolve, and the
    map [TableRow] returns with the error, in the place of the row and in
    the place of the header map, holds the entry of [Name] already
    stringified.  It is not empty. *)
Lemma TableRow_returns_partial_row :
  TableRow (Samples.half_known "Alice" 30)
  = ({["Name" := "Alice"]}, {["Name" := "Alice"]}, Some "Invalid field 'Age' in Half")
  /\ ({["Name" := "Alice"]} : gmap string string) ≠ ∅.
Proof.
  split; [vm_compute; reflexivity|].
  intros E. apply (f_equal (lookup "Name")) in E.
  rewrite lookup_singleton_eq, lookup_empty in E. discriminate.
Qed.

(** C2, amended: [TableRow] stops at the first field whose header does
    not resolve and returns that error; no later field is looked at.  The
    map returned with the error, in both places, is the row built from the
    fields before that one: it has the stringified value of each of them
    and nothing else.  The header map built so far is not returned. *)
Theorem TableRow_aborts_at_first_failure (table : TableStruct)
    (pre : list StructField) (f : StructField) (post : list StructField) :
  Fields table = pre ++ f :: post ->
  Forall (resolves table) pre ->
  ~ resolves table f ->
  exists e,
    (GetHeader table (Name f)).2 = Some e /\
    TableRow table = (row_after table pre, row_after table pre, Some e) /\
    forall name,
      row_after table pre !! name
      = if decide (name ∈ map Name pre)
        then (fun fv => stringify (FieldValue fv)) <$> FieldByName (Fields table) name
        else None.
Proof.
  intros Hsplit Hpre Hf.
  destruct (TableRow_unresolved table pre f post Hsplit Hpre Hf) as (e & He & E).
  exists e. split; [done|]. split; [done|]. intros name.
  unfold row_after. rewrite row_fold_lookup.
  destruct (decide (name ∈ map Name pre)) as [Hin|Hin]; [|by rewrite lookup_empty].
  destruct (FieldByName (Fields table) name) as [fv|] eqn:Efv; [done|].
  exfalso. apply list_elem_of_fmap in Hin as (g & -> & Hg).
  assert (g ∈ Fields table) as Hg' by (rewrite Hsplit; set_solver).
  apply FieldByName_elem in Hg' as [fv Hfv]. congruence.
Qed.

Lemma TableRow_aborts_at_first_failure_witness :
  exists e,
    (GetHeader (Samples.half_known "Alice" 30) "Age").2 = Some e /\
    TableRow (Samples.half_known "Alice" 30)
    = (row_after (Samples.half_known "Alice" 30)
         [ {| Name := "Name"; Tag := [("header", "Name")]; FieldValue := StringValue "Alice" |} ],
       row_after (Samples.half_known "Alice" 30)
         [ {| Name := "Name"; Tag := [("header", "Name")]; FieldValue := StringValue "Alice" |} ],
       Some e) /\
    forall name,
      row_after (Samples.half_known "Alice" 30)
        [ {| Name := "Name"; Tag := [("header", "Name")]; FieldValue := StringValue "Alice" |} ]
      !! name
      = if decide (name ∈ map Name
             [ {| Name := "Name"; Tag := [("header", "Name")]; FieldValue := StringValue "Alice" |} ])
        then (fun fv => stringify (FieldValue fv))
               <$> FieldByName (Fields (Samples.half_known "Alice" 30)) name
        else None.
Proof.
  apply (TableRow_aborts_at_first_failure (Samples.half_known "Alice" 30)
           [ {| Name := "Name"; Tag := [("header", "Name")]; FieldValue := StringValue "Alice" |} ]
           {| Name := "Age"; Tag := [("header", "Age")]; FieldValue := IntValue KInt 30 |}
           []).
  - reflexivity.
  - repeat constructor.
  - intros H. vm_compute in H. discriminate.
Defined.

(** C3, as stated, fails for a field of type [uintptr], an unsigned
    integer type of Go: [reflect.Uintptr] is not among the kinds of the
    switch, and the field with the number 42 comes out as the sentinel,
    which is the numeral of no number, and not as ["42"]. *)
Lemma uintptr_field_is_unsupported :
  TableRow (Samples.handle 42)
  = ({["Fd" := "NO_SUPPORT"]}, {["Fd" := "Descriptor"]}, None)
  /\ stringify (OtherValue (KUintptr 42)) = "NO_SUPPORT"
  /\ stringified (OtherValue (KUintptr 42)) "42"
  /\ ~ stringified (OtherValue (KUintptr 42)) "NO_SUPPORT".
Proof.
  split; [vm_compute; reflexivity|]. split; [reflexivity|]. split.
  - constructor. reflexivity.
  - intros Hs. inversion Hs as [| | |u s Hd| | |k Hk]; subst.
    + by apply not_decimal_sentinel in Hd.
    + by apply (Hk 42%Z).
Qed.

(** C3, amended: stringification by [TableRow] is total and type-driven
    for every field.  When the headers of a record resolve, [TableRow]
    returns no error whatever the types of the fields are, and the row
    holds for every field the text its type calls for: the text itself
    for a string, the base-10 numeral for the signed kinds
    [Int] .. [Int64] and the unsigned kinds [Uint] .. [Uint64], ["true"]
    or ["false"] for a boolean, and the sentinel ["NO_SUPPORT"] for every
    other kind, [Uintptr] among them.  The field read is the one
    [FieldByName] finds, the field itself when names are distinct. *)
Theorem TableRow_stringification (table : TableStruct) :
  Forall (resolves table) (Fields table) ->
  (TableRow table).2 = None /\
  forall f, f ∈ Fields table ->
    exists fv s,
      FieldByName (Fields table) (Name f) = Some fv /\
      (NoDup (map Name (Fields table)) -> fv = f) /\
      row_of table !! Name f = Some s /\
      s = stringify (FieldValue fv) /\
      (~ is_uintptr (FieldValue fv) -> stringified (FieldValue fv) s) /\
      (is_uintptr (FieldValue fv) -> s = "NO_SUPPORT").
Proof.
  intros Hall. unfold row_of. rewrite (TableRow_resolved table Hall). simpl.
  split; [done|]. intros f Hf.
  destruct (FieldByName_elem (Fields table) f Hf) as [fv Hfv].
  exists fv, (stringify (FieldValue fv)). split; [done|]. split.
  { intros Hnd. rewrite (FieldByName_NoDup _ _ Hnd Hf) in Hfv. congruence. }
  split.
  { unfold row_after. rewrite row_fold_lookup, decide_True, Hfv; [done|].
    apply list_elem_of_fmap. eauto. }
  split; [done|]. split; [apply stringify_stringified|].
  intros [u ->]. reflexivity.
Qed.

Lemma TableRow_stringification_witness :
  (TableRow (Samples.person "Alice" 30)).2 = None /\
  forall f, f ∈ Fields (Samples.person "Alice" 30) ->
    exists fv s,
      FieldByName (Fields (Samples.person "Alice" 30)) (Name f) = Some fv /\
      (NoDup (map Name (Fields (Samples.person "Alice" 30))) -> fv = f) /\
      row_of (Samples.person "Alice" 30) !! Name f = Some s /\
      s = stringify (FieldValue fv) /\
      (~ is_uintptr (FieldValue fv) -> stringified (FieldValue fv) s) /\
      (is_uintptr (FieldValue fv) -> s = "NO_SUPPORT").
Proof.
  apply (TableRow_stringification (Samples.person "Alice" 30)).
  repeat constructor.
Defined.

(** C4, as stated, fails in two ways.  Counted in one unit, the width
    is not the longest length: under the header of one accented letter
    (one character, two bytes) and the cell ["a"], both cells come out
    two characters wide where the longest text has one, and the header
    cell has three bytes where the longest text has two.  And a column of
    10,000,010 bytes or more is not padded at all: [fmt] does not read
    that width back and the header line is its error text, without
    separator and without line feed. *)
Lemma column_width_units_and_limit :
  headerLine [ {["Val" := "a"]} ] {["Val" := Samples.e_acute]} ["Val"]
  = Samples.e_acute +:+ " " +:+ GoString.newline
  /\ print_rows [ {["Val" := "a"]} ] {["Val" := Samples.e_acute]} ["Val"]
     = "a " +:+ GoString.newline
  /\ Nat.max (RuneCountInString Samples.e_acute) (RuneCountInString "a") = 1
  /\ RuneCountInString (Samples.e_acute +:+ " ") = 2
  /\ Nat.max (GoString.len Samples.e_acute) (GoString.len "a") = 2
  /\ GoString.len (Samples.e_acute +:+ " ") = 3
  /\ headerLine [∅] {["Val" := GoString.Repeat "a" Samples.huge]} ["Val"]
     = "%!(NOVERB)%!(EXTRA string=" +:+ GoString.Repeat "a" Samples.huge +:+ ")".
Proof.
  split; [vm_compute; reflexivity|]. split; [vm_compute; reflexivity|].
  split; [vm_compute; reflexivity|]. split; [vm_compute; reflexivity|].
  split; [vm_compute; reflexivity|]. split; [vm_compute; reflexivity|].
  exact (proj1 (proj2 (overwide_column (GoString.Repeat "a" Samples.huge) ∅
                         huge_text_refused))).
Qed.

(** C4, amended: in a text table whose columns are all narrower than
    10,000,010, the width of a column is the larger of the length of its
    header and of the longest value of that field over all rows, lengths
    in bytes as Go's [len] gives them; the output of [generateTable] is
    the header line, the underline and the data lines, each line its
    cells joined by [" | "] and a line feed; a cell is its text followed
    by blanks, left-justified; and every header and every cell of a
    column comes out exactly as wide as the column in characters, the
    runes by which [fmt] measures width.  A cell whose text is ASCII has
    that many bytes as well. *)
Theorem text_table_column_widths (data : list (gmap string string))
    (fieldMap : gmap string string) (fields : list string) :
  widths_fit data fieldMap fields ->
  colWidth data fieldMap fields = map (column_width data fieldMap) fields
  /\ headerLine data fieldMap fields
     = GoString.Join
         (map (fun field =>
                 render_cell (column_width data fieldMap field) fieldMap field) fields)
         " | " +:+ GoString.newline
  /\ print_rows data fieldMap fields
     = GoString.Concat
         (map (fun r =>
                 GoString.Join
                   (map (fun field =>
                           render_cell (column_width data fieldMap field) r field) fields)
                   " | " +:+ GoString.newline) data)
  /\ generateTable data fieldMap fields
     = (GoString.Join
          (map (fun field =>
                  render_cell (column_width data fieldMap field) fieldMap field) fields)
          " | " +:+ GoString.newline)
       +:+ underline data fieldMap fields +:+ GoString.newline
       +:+ GoString.Concat
             (map (fun r =>
                     GoString.Join
                       (map (fun field =>
                               render_cell (column_width data fieldMap field) r field)
                          fields)
                       " | " +:+ GoString.newline) data)
  /\ (forall wid m field,
        render_cell wid m field
        = map_index m field
          +:+ GoString.Repeat " " (wid - RuneCountInString (map_index m field)))
  /\ (forall field,
        RuneCountInString (render_cell (column_width data fieldMap field) fieldMap field)
        = column_width data fieldMap field)
  /\ (forall field r, r ∈ data ->
        RuneCountInString (render_cell (column_width data fieldMap field) r field)
        = column_width data fieldMap field)
  /\ (forall wid m field,
        RuneCountInString (map_index m field) = GoString.len (map_index m field) ->
        GoString.len (map_index m field) <= wid ->
        GoString.len (render_cell wid m field) = wid).
Proof.
  intros Hfit.
  split; [apply colWidth_eq|].
  split; [by apply headerLine_eq|].
  split; [by apply print_rows_eq|].
  split; [by apply generateTable_lines|].
  split; [intros wid m field; by rewrite <- padString_render_cell|].
  split.
  { intros field. apply RuneCount_render_cell.
    by destruct (len_le_column_width data fieldMap field) as [Hhdr _]. }
  split.
  { intros field r Hr. apply RuneCount_render_cell.
    destruct (len_le_column_width data fieldMap field) as [_ Hrows]. by apply Hrows. }
  intros wid m field Hascii Hwid. rewrite <- padString_render_cell.
  unfold fmt.padString. rewrite len_app, len_Repeat_char. lia.
Qed.

Lemma text_table_column_widths_witness :
  widths_fit Samples.town_rows Samples.town_headers ["Name"; "Town"]
  /\ colWidth Samples.town_rows Samples.town_headers ["Name"; "Town"]
     = map (column_width Samples.town_rows Samples.town_headers) ["Name"; "Town"]
  /\ headerLine Samples.town_rows Samples.town_headers ["Name"; "Town"]
     = GoString.Join
         (map (fun field =>
                 render_cell (column_width Samples.town_rows Samples.town_headers field)
                   Samples.town_headers field) ["Name"; "Town"])
         " | " +:+ GoString.newline.
Proof.
  assert (widths_fit Samples.town_rows Samples.town_headers ["Name"; "Town"]) as Hfit.
  { unfold widths_fit. vm_compute. repeat constructor. }
  split; [exact Hfit|].
  pose proof (text_table_column_widths Samples.town_rows Samples.town_headers
                ["Name"; "Town"] Hfit) as (Hw & Hh & _).
  split; [exact Hw|exact Hh].
Defined.

(** C5, as stated, fails on text that is not ASCII.  The header is the
    letter e with an acute accent, one character in two bytes: the column
    is two wide, the header line is that letter, a blank and the line
    feed, three characters, and the underline has three ["="], not two. *)
Lemma underline_longer_than_accented_header :
  GenerateTable [Samples.labelled Samples.e_acute "a"] ["Val"]
  = (Samples.e_acute +:+ " " +:+ GoString.newline
     +:+ "===" +:+ GoString.newline
     +:+ "a " +:+ GoString.newline, None)
  /\ headerLine [row_of (Samples.labelled Samples.e_acute "a")]
       (headers_of (Samples.labelled Samples.e_acute "a")) ["Val"]
     = Samples.e_acute +:+ " " +:+ GoString.newline
  /\ underline [row_of (Samples.labelled Samples.e_acute "a")]
       (headers_of (Samples.labelled Samples.e_acute "a")) ["Val"]
     = "==="
  /\ RuneCountInString (Samples.e_acute +:+ " " +:+ GoString.newline) = 3
  /\ RuneCountInString "===" ≠ RuneCountInString (Samples.e_acute +:+ " " +:+ GoString.newline) - 1.
Proof. repeat split; vm_compute; (reflexivity || discriminate). Qed.

(** C5, amended: the underline printed after the header line is made of
    ["="] alone, as many as the header line has bytes (Go's [len]) less
    one.  When every column is narrower than 10,000,010 the header line
    ends in a line feed, and that is the byte left out.  The number is
    never less than the characters of the header line less one, and
    equal to it when the header line has as many characters as bytes, as
    ASCII text has.  The output is the header line, the underline, a
    line feed, and the data lines. *)
Theorem underline_matches_header_line (data : list (gmap string string))
    (fieldMap : gmap string string) (fields : list string) :
  let n := GoString.len (headerLine data fieldMap fields) - 1 in
  underline data fieldMap fields = GoString.Repeat "=" n
  /\ GoString.len (underline data fieldMap fields) = n
  /\ RuneCountInString (underline data fieldMap fields) = n
  /\ GoString.len (headerLine data fieldMap fields) = S n
  /\ (widths_fit data fieldMap fields ->
      exists cells_text,
        headerLine data fieldMap fields = cells_text +:+ GoString.newline)
  /\ RuneCountInString (headerLine data fieldMap fields) - 1 <= n
  /\ (RuneCountInString (headerLine data fieldMap fields)
      = GoString.len (headerLine data fieldMap fields) ->
      RuneCountInString (underline data fieldMap fields)
      = RuneCountInString (headerLine data fieldMap fields) - 1)
  /\ generateTable data fieldMap fields
     = headerLine data fieldMap fields +:+ underline data fieldMap fields
       +:+ GoString.newline +:+ print_rows data fieldMap fields.
Proof.
  intros n. subst n. unfold underline.
  assert (0 < GoString.len (headerLine data fieldMap fields)) as Hpos.
  { unfold headerLine, fstring. apply Sprintf_not_empty. }
  assert (forall n, RuneCountInString (GoString.Repeat "=" n) = n) as Hrunes.
  { unfold RuneCountInString. induction n as [|n IH]; [done|].
    simpl. change ("=" +:+ ?x) with (String.String "="%char x). simpl.
    by rewrite str_app_nil_l, IH. }
  split; [done|]. split; [apply len_Repeat_char|]. split; [apply Hrunes|].
  split; [lia|].
  split.
  { intros Hfit. rewrite headerLine_eq by done. unfold render_line. eauto. }
  split.
  { pose proof (RuneCount_le_len (headerLine data fieldMap fields)). lia. }
  split; [intros Hascii; rewrite Hrunes; lia|].
  unfold generateTable. by rewrite !str_app_assoc.
Qed.

(** C6: when the header of some field of some record does not resolve,
    [GenerateTable] and [GenerateCSV] both return the error of the header
    resolution, the first one met, and nothing is written: the text output
    is empty and the writer and its stream are left as they were. *)
Theorem header_failure_aborts_generation {World : Type} `{CsvWriter World}
    (tables : list TableStruct) (fields : list string) (w : World) :
  Exists (fun item => Exists (fun f => ~ resolves item f) (Fields item)) tables ->
  exists e,
    GenerateTable tables fields = ("", Some e)
    /\ GenerateCSV tables fields w = (w, Some e)
    /\ exists item f,
         item ∈ tables /\ f ∈ Fields item /\ (GetHeader item (Name f)).2 = Some e.
Proof.
  intros Hex.
  destruct (first_failure introspects tables)
    as [Hall|(pre & item & post & -> & Hpre & Hitem)].
  { exfalso. apply Exists_exists in Hex as (item & Hin & Hbad).
    rewrite Forall_forall in Hall. specialize (Hall item Hin).
    apply introspects_iff in Hall. apply Exists_exists in Hbad as (f & Hf & Hno).
    rewrite Forall_forall in Hall. by apply Hno, Hall. }
  destruct (unresolved_field_error item Hitem) as (e & f & He & Hf & Hget).
  pose proof (GenerateTable_loop_err pre item post e [] ∅ Hpre He) as Herr.
  exists e. split; [|split].
  - unfold GenerateTable.
    destruct (GenerateTable_loop (pre ++ item :: post) [] ∅) as [[table headers] err].
    simpl in Herr. by subst err.
  - unfold GenerateCSV. rewrite (GenerateCSV_loop_eq _ [] ∅), Herr. done.
  - exists item, f. split; [set_solver|done].
Qed.

Lemma header_failure_aborts_generation_witness :
  exists e,
    GenerateTable [Samples.person "Alice" 30; Samples.half_known "Bob" 5] ["Name"; "Age"]
    = ("", Some e)
    /\ GenerateCSV [Samples.person "Alice" 30; Samples.half_known "Bob" 5] ["Name"; "Age"]
         (Samples.pipe_with_room 2)
       = (Samples.pipe_with_room 2, Some e)
    /\ exists item f,
         item ∈ [Samples.person "Alice" 30; Samples.half_known "Bob" 5]
         /\ f ∈ Fields item /\ (GetHeader item (Name f)).2 = Some e.
Proof.
  apply (header_failure_aborts_generation
           [Samples.person "Alice" 30; Samples.half_known "Bob" 5] ["Name"; "Age"]
           (Samples.pipe_with_room 2)).
  apply Exists_cons_tl, Exists_cons_hd, Exists_cons_tl, Exists_cons_hd.
  intros H. vm_compute in H. discriminate.
Defined.

(** C7: for a list of records that ends in [final], all of them
    introspected without error, [GenerateTable] renders the rows with the
    header map of [final]: every record overwrites [headers] in turn, and
    the header line is the selection formatted from the headers
    [TableRow] resolved for [final]. *)
Theorem last_record_supplies_headers (tables : list TableStruct)
    (final : TableStruct) (fields : list string) :
  Forall introspects (tables ++ [final]) ->
  GenerateTable (tables ++ [final]) fields
  = (generateTable (map row_of (tables ++ [final])) (headers_of final) fields, None)
  /\ (GenerateTable_loop (tables ++ [final]) [] ∅).1.2 = headers_of final
  /\ headers_of final = headers_after final (Fields final)
  /\ headerLine (map row_of (tables ++ [final])) (headers_of final) fields
     = Sprintf (fstring (map row_of (tables ++ [final])) (headers_of final) fields)
         (map (map_index (headers_of final)) fields).
Proof.
  intros Hall.
  pose proof (GenerateTable_loop_ok (tables ++ [final]) [] ∅ Hall) as E.
  rewrite last_snoc in E. simpl in E.
  split; [unfold GenerateTable; by rewrite E|].
  split; [by rewrite E|].
  split; [|apply headerLine_Sprintf].
  apply Forall_app in Hall as [_ Hfinal]. rewrite Forall_singleton in Hfinal.
  apply introspects_iff in Hfinal. unfold headers_of.
  by rewrite (TableRow_resolved final Hfinal).
Qed.

Lemma last_record_supplies_headers_witness :
  GenerateTable ([Samples.labelled "First" "x"] ++ [Samples.labelled "Last" "y"]) ["Val"]
  = (generateTable
       (map row_of ([Samples.labelled "First" "x"] ++ [Samples.labelled "Last" "y"]))
       (headers_of (Samples.labelled "Last" "y")) ["Val"], None)
  /\ (GenerateTable_loop
        ([Samples.labelled "First" "x"] ++ [Samples.labelled "Last" "y"]) [] ∅).1.2
     = headers_of (Samples.labelled "Last" "y")
  /\ headers_of (Samples.labelled "Last" "y")
     = headers_after (Samples.labelled "Last" "y") (Fields (Samples.labelled "Last" "y"))
  /\ headerLine
       (map row_of ([Samples.labelled "First" "x"] ++ [Samples.labelled "Last" "y"]))
       (headers_of (Samples.labelled "Last" "y")) ["Val"]
     = Sprintf
         (fstring
            (map row_of ([Samples.labelled "First" "x"] ++ [Samples.labelled "Last" "y"]))
            (headers_of (Samples.labelled "Last" "y")) ["Val"])
         (map (map_index (headers_of (Samples.labelled "Last" "y"))) ["Val"]).
Proof.
  apply (last_record_supplies_headers
           [Samples.labelled "First" "x"] (Samples.labelled "Last" "y") ["Val"]).
  repeat constructor.
Defined.

(** C8: over the same records and the same selection the two modes
    build the same rows and stop on the same error: both call [TableRow]
    on every record, and the table of [GenerateCSV] is the table of
    [GenerateTable].  From a table, text mode formats and CSV mode writes
    the same records of cells, the entry of each row for each selected
    field, in order; only the framing differs. *)
Theorem both_modes_same_rows {World : Type} `{CsvWriter World}
    (tables : list TableStruct) (fields : list string) (w : World) :
  GenerateCSV_loop tables []
  = ((GenerateTable_loop tables [] ∅).1.1, (GenerateTable_loop tables [] ∅).2)
  /\ (GenerateCSV tables fields w).2 = (GenerateTable tables fields).2
  /\ (forall table headers,
        print_rows table headers fields
        = GoString.Concat
            (map (Sprintf (fstring table headers fields)) (cells table fields)))
  /\ (forall table, generateCSV_loop table fields w = write_all (cells table fields) w).
Proof.
  split; [apply GenerateCSV_loop_eq|].
  split.
  { rewrite GenerateCSV_error, (GenerateCSV_loop_eq _ [] ∅). simpl.
    unfold GenerateTable.
    by destruct (GenerateTable_loop tables [] ∅) as [[table headers] [e|]]. }
  split; [|intros table; apply generateCSV_loop_cells].
  intros table headers. unfold print_rows, cells.
  rewrite (foldl_append (fun row => Sprintf (fstring table headers fields) (values fields row))).
  rewrite str_app_nil_l, map_map. f_equal. apply map_ext. intros row.
  by rewrite values_map.
Qed.

(** C9, as stated, fails in a column of 10,000,010 bytes or more: [fmt]
    does not read that width back, and for the row without an entry the
    program prints the error text of [fmt], with no blank and no line
    feed, and not the blanks of the column width. *)
Lemma missing_entry_in_overwide_column :
  (∅ : gmap string string) !! "Val" = None
  /\ colWidth [∅] {["Val" := GoString.Repeat "a" Samples.huge]} ["Val"]
     = [GoString.len (GoString.Repeat "a" Samples.huge)]
  /\ print_rows [∅] {["Val" := GoString.Repeat "a" Samples.huge]} ["Val"]
     = "%!(NOVERB)%!(EXTRA string=)"
  /\ print_rows [∅] {["Val" := GoString.Repeat "a" Samples.huge]} ["Val"]
     <> GoString.Repeat " " (GoString.len (GoString.Repeat "a" Samples.huge))
        +:+ GoString.newline.
Proof.
  split; [apply lookup_empty|].
  exact (overwide_missing_entry (GoString.Repeat "a" Samples.huge) huge_text_refused).
Qed.

(** C9, amended: rendering the text table cannot fail, and in a table
    whose columns are all narrower than 10,000,010 a selected name
    without an entry gives an empty cell.  The error [GenerateTable]
    returns is the error of the introspection loop, whatever the
    selection is.  Each line the program formats is one cell for each
    selected field; where the row (or the header map) has no entry for
    the name, the cell is the blanks of the column width and nothing
    else. *)
Theorem missing_entry_renders_blank (data : list (gmap string string))
    (fieldMap : gmap string string) (fields : list string) :
  widths_fit data fieldMap fields ->
  (forall tables, (GenerateTable tables fields).2 = (GenerateTable_loop tables [] ∅).2)
  /\ generateTable data fieldMap fields
     = render_line data fieldMap fields fieldMap
       +:+ underline data fieldMap fields +:+ GoString.newline
       +:+ GoString.Concat (map (render_line data fieldMap fields) data)
  /\ (forall r,
        Sprintf (fstring data fieldMap fields) (values fields r)
        = render_line data fieldMap fields r)
  /\ (forall m field, m !! field = None ->
        map_index m field = ""
        /\ render_cell (column_width data fieldMap field) m field
           = GoString.Repeat " " (column_width data fieldMap field)
        /\ GoString.len (render_cell (column_width data fieldMap field) m field)
           = column_width data fieldMap field).
Proof.
  intros Hfit. split.
  { intros tables. unfold GenerateTable.
    by destruct (GenerateTable_loop tables [] ∅) as [[table headers] [e|]]. }
  split; [by apply generateTable_lines|].
  split; [intros r; rewrite values_map; by apply Sprintf_fstring|].
  intros m field Hm. unfold map_index, render_cell. rewrite Hm. simpl.
  split; [done|]. split; [done|]. apply len_Repeat_char.
Qed.

Lemma missing_entry_renders_blank_witness :
  widths_fit Samples.town_rows Samples.town_headers ["Name"; "Town"]
  /\ generateTable Samples.town_rows Samples.town_headers ["Name"; "Town"]
     = render_line Samples.town_rows Samples.town_headers ["Name"; "Town"]
         Samples.town_headers
       +:+ underline Samples.town_rows Samples.town_headers ["Name"; "Town"]
       +:+ GoString.newline
       +:+ GoString.Concat
             (map (render_line Samples.town_rows Samples.town_headers ["Name"; "Town"])
                Samples.town_rows).
Proof.
  assert (widths_fit Samples.town_rows Samples.town_headers ["Name"; "Town"]) as Hfit.
  { unfold widths_fit. vm_compute. repeat constructor. }
  split; [exact Hfit|].
  exact (proj1 (proj2 (missing_entry_renders_blank Samples.town_rows
                         Samples.town_headers ["Name"; "Town"] Hfit))).
Defined.

(** C10: for no records at all [GenerateTable] returns no error and still
    prints a header line and an underline and no data line.  The header
    map is empty, every header reads as the empty string and every column
    has width zero, so the header line is the separators alone. *)
Theorem no_records_header_only (fields : list string) :
  GenerateTable [] fields
  = (blank_header fields +:+ GoString.newline
     +:+ GoString.Repeat "=" (GoString.len (blank_header fields))
     +:+ GoString.newline, None)
  /\ GoString.len (blank_header fields) = 3 * (length fields - 1)
  /\ colWidth [] ∅ fields = replicate (length fields) 0
  /\ finter ∅ fields = replicate (length fields) "".
Proof.
  assert (forall fs : list string,
            map (fun field => render_cell (column_width [] ∅ field) ∅ field) fs
            = replicate (length fs) "") as Hcells.
  { induction fs as [|f fs IH]; simpl; [done|]. by rewrite IH. }
  assert (headerLine [] ∅ fields = blank_header fields +:+ GoString.newline) as Hhdr.
  { rewrite headerLine_eq.
    - unfold render_line, blank_header. by rewrite Hcells.
    - apply widths_fit_columns. intros field _. reflexivity. }
  split.
  { unfold GenerateTable. simpl. f_equal. unfold generateTable, underline.
    rewrite Hhdr, len_app. simpl GoString.len at 2.
    replace (GoString.len (blank_header fields) + 1 - 1)
      with (GoString.len (blank_header fields)) by lia.
    unfold print_rows. simpl. by rewrite !str_app_assoc, str_app_empty_r. }
  split.
  { clear. unfold blank_header. induction fields as [|f fs IH]; simpl; [done|].
    destruct fs as [|f2 fs]; simpl in *; [done|].
    rewrite !len_app, IH. simpl. lia. }
  split.
  - rewrite colWidth_eq. clear. induction fields as [|f fs IH]; simpl; [done|].
    by rewrite IH.
  - rewrite finter_map. clear. induction fields as [|f fs IH]; simpl; [done|].
    by rewrite IH.
Qed.

(** * Further properties of the code *)

(** ** The introspector and the tag helper *)

Lemma headers_fold_lookup (table : TableStruct) (done : list StructField)
    (name : string) : forall headers : gmap string string,
  foldl (headers_step table) headers done !! name
  = if decide (name ∈ map Name done)
    then Some (GetHeader table name).1
    else headers !! name.
Proof.
  induction done as [|f done IH]; intros headers; cbn [foldl map].
  - rewrite decide_False; [done|]. apply not_elem_of_nil.
  - rewrite IH. unfold headers_step.
    destruct (decide (name ∈ map Name done)) as [Hin|Hin].
    + by rewrite decide_True by (by right).
    + destruct (decide (Name f = name)) as [<-|Hne].
      * rewrite decide_True by (by left). by rewrite lookup_insert_eq.
      * rewrite decide_False.
        2:{ intros [?|?]%elem_of_cons; congruence. }
        by rewrite lookup_insert_ne.
Qed.

Lemma FieldByName_None (fs : list StructField) (name : string) :
  FieldByName fs name = None <-> name ∉ map Name fs.
Proof.
  split.
  - intros Hnone Hin. apply list_elem_of_fmap in Hin as (f & -> & Hf).
    apply FieldByName_elem in Hf as [fv Hfv]. congruence.
  - intros Hnot. destruct (FieldByName fs name) as [fv|] eqn:E; [|done].
    apply FieldByName_Some in E as [<- Hin]. exfalso. apply Hnot.
    apply list_elem_of_fmap. eauto.
Qed.

Lemma tagged_resolves (typeName : string) (fs : list StructField) :
  Forall (resolves (tagged typeName fs)) fs.
Proof.
  apply Forall_forall. intros f Hf. unfold resolves, tagged. simpl.
  unfold GetHeaderTag. by destruct (FieldByName_elem fs f Hf) as [fv ->].
Qed.

(** X1: on a type that embeds no struct, [GetHeaderTag] fails exactly
    for a name that is no field of the type.  For the name of a field it
    returns the [header] entry of the tag of the first field of that
    name, the empty string when the tag has none, and no error; for any
    other name it returns the empty string and the error that names the
    field and the type. *)
Theorem GetHeaderTag_fails_only_for_unknown_fields (typeName : string)
    (fs : list StructField) (fieldName : string) :
  embeds_nothing fs ->
  ((GetHeaderTag typeName fs fieldName).2 = None <-> fieldName ∈ map Name fs)
  /\ (forall f,
        FieldByName fs fieldName = Some f ->
        Name f = fieldName /\ f ∈ fs /\
        GetHeaderTag typeName fs fieldName
        = (StructTag_Get (Tag f) TABLE_HEADER_TAG, None))
  /\ (fieldName ∉ map Name fs ->
        GetHeaderTag typeName fs fieldName
        = ("", Some ("Invalid field '" +:+ fieldName +:+ "' in " +:+ typeName)))
  /\ (forall f, f ∈ fs -> Tag f = [] ->
        FieldByName fs (Name f) = Some f ->
        GetHeaderTag typeName fs (Name f) = ("", None)).
Proof.
  intros _. unfold GetHeaderTag. split; [|split; [|split]].
  - destruct (FieldByName fs fieldName) as [f|] eqn:E; simpl.
    + apply FieldByName_Some in E as [<- Hin]. split; [|done].
      intros _. apply list_elem_of_fmap. eauto.
    + apply FieldByName_None in E. split; [discriminate|done].
  - intros f E. rewrite E. by apply FieldByName_Some in E as [-> Hin].
  - intros Hnot. apply FieldByName_None in Hnot. by rewrite Hnot.
  - intros f Hf Htag E. by rewrite E, Htag.
Qed.

Lemma GetHeaderTag_fails_only_for_unknown_fields_witness :
  embeds_nothing (Fields (Samples.person "Alice" 30))
  /\ ((GetHeaderTag "Person" (Fields (Samples.person "Alice" 30)) "Town").2 = None
      <-> "Town" ∈ map Name (Fields (Samples.person "Alice" 30))).
Proof.
  assert (embeds_nothing (Fields (Samples.person "Alice" 30))) as Hno.
  { repeat constructor; discriminate. }
  split; [exact Hno|].
  exact (proj1 (GetHeaderTag_fails_only_for_unknown_fields "Person"
                  (Fields (Samples.person "Alice" 30)) "Town" Hno)).
Defined.

(** X2: records whose [GetHeader] is [GetHeaderTag] on their own type
    never make introspection fail: [TableRow] returns no error for each
    of them, its header map gives every field the [header] entry of the
    tag, and [GenerateTable] over any list of such records and any
    selection returns no error. *)
Theorem tagged_records_never_fail (typeName : string) (fs : list StructField)
    (specs : list (string * list StructField)) (fields : list string) :
  (TableRow (tagged typeName fs)).2 = None
  /\ (forall f, f ∈ fs ->
        exists fv, FieldByName fs (Name f) = Some fv /\
          headers_of (tagged typeName fs) !! Name f
          = Some (StructTag_Get (Tag fv) TABLE_HEADER_TAG))
  /\ (GenerateTable (map (fun spec => tagged spec.1 spec.2) specs) fields).2 = None.
Proof.
  pose proof (tagged_resolves typeName fs) as Hres.
  split; [by rewrite (TableRow_resolved (tagged typeName fs) Hres)|]. split.
  - intros f Hf. destruct (FieldByName_elem fs f Hf) as [fv Hfv].
    exists fv. split; [done|]. unfold headers_of.
    rewrite (TableRow_resolved (tagged typeName fs) Hres). simpl.
    unfold headers_after. rewrite headers_fold_lookup, decide_True.
    + simpl. unfold GetHeaderTag. by rewrite Hfv.
    + apply list_elem_of_fmap. eauto.
  - assert (Forall introspects (map (fun spec => tagged spec.1 spec.2) specs)) as Hall.
    { apply Forall_forall. intros item Hitem.
      apply list_elem_of_fmap in Hitem as ([T gs] & -> & _).
      apply introspects_iff, tagged_resolves. }
    unfold GenerateTable. by rewrite (GenerateTable_loop_ok _ [] ∅ Hall).
Qed.

(** X3: when every header resolves, the two maps [TableRow] returns have
    an entry for the name of every field of the record and for no other
    name: the row holds the stringified value of the first field of that
    name, the header map the header [GetHeader] gave for it. *)
Theorem TableRow_maps_cover_the_fields (table : TableStruct) :
  Forall (resolves table) (Fields table) ->
  (forall name,
     row_of table !! name
     = if decide (name ∈ map Name (Fields table))
       then Some (cell_text table name) else None)
  /\ (forall name,
        headers_of table !! name
        = if decide (name ∈ map Name (Fields table))
          then Some (GetHeader table name).1 else None)
  /\ dom (row_of table) = dom (headers_of table)
  /\ dom (row_of table) = list_to_set (map Name (Fields table)).
Proof.
  intros Hall. unfold row_of, headers_of.
  rewrite (TableRow_resolved table Hall). simpl.
  assert (forall name,
            row_after table (Fields table) !! name
            = if decide (name ∈ map Name (Fields table))
              then Some (cell_text table name) else None) as Hrow.
  { intros name. unfold row_after, cell_text. rewrite row_fold_lookup.
    destruct (decide (name ∈ map Name (Fields table))) as [Hin|Hin];
      [|by rewrite lookup_empty].
    destruct (FieldByName (Fields table) name) as [fv|] eqn:E; [done|].
    by apply FieldByName_None in E. }
  assert (forall name,
            headers_after table (Fields table) !! name
            = if decide (name ∈ map Name (Fields table))
              then Some (GetHeader table name).1 else None) as Hhdr.
  { intros name. unfold headers_after. rewrite headers_fold_lookup.
    by destruct (decide (name ∈ map Name (Fields table))); rewrite ?lookup_empty. }
  split; [done|]. split; [done|].
  assert (dom (row_after table (Fields table))
          = (list_to_set (map Name (Fields table)) : gset string)) as Hdom.
  { apply set_eq. intros name. rewrite elem_of_dom, Hrow, elem_of_list_to_set.
    destruct (decide (name ∈ map Name (Fields table))); split;
      intros; try done; by eauto || by destruct H as [? ?]. }
  split; [|done]. rewrite Hdom. apply set_eq. intros name.
  rewrite elem_of_dom, Hhdr, elem_of_list_to_set.
  destruct (decide (name ∈ map Name (Fields table))); split;
    intros; try done; by eauto || by destruct H as [? ?].
Qed.

Lemma TableRow_maps_cover_the_fields_witness :
  (forall name,
     row_of (Samples.person "Alice" 30) !! name
     = if decide (name ∈ map Name (Fields (Samples.person "Alice" 30)))
       then Some (cell_text (Samples.person "Alice" 30) name) else None)
  /\ (forall name,
        headers_of (Samples.person "Alice" 30) !! name
        = if decide (name ∈ map Name (Fields (Samples.person "Alice" 30)))
          then Some (GetHeader (Samples.person "Alice" 30) name).1 else None)
  /\ dom (row_of (Samples.person "Alice" 30))
     = dom (headers_of (Samples.person "Alice" 30))
  /\ dom (row_of (Samples.person "Alice" 30))
     = list_to_set (map Name (Fields (Samples.person "Alice" 30))).
Proof.
  apply (TableRow_maps_cover_the_fields (Samples.person "Alice" 30)).
  repeat constructor.
Defined.

(** X4: [TableRow] returns an error exactly when the header of some
    field does not resolve, and the error it returns is the one
    [GetHeader] gave for the first such field in declared order. *)
Theorem TableRow_error_iff_unresolved (table : TableStruct) :
  ((TableRow table).2 = None <-> Forall (resolves table) (Fields table))
  /\ (forall e,
        (TableRow table).2 = Some e ->
        exists pre f post,
          Fields table = pre ++ f :: post /\
          Forall (resolves table) pre /\
          (GetHeader table (Name f)).2 = Some e).
Proof.
  split; [apply introspects_iff|]. intros e He.
  destruct (first_failure (resolves table) (Fields table))
    as [Hall|(pre & f & post & Hsplit & Hpre & Hf)].
  { rewrite (TableRow_resolved table Hall) in He. discriminate. }
  destruct (TableRow_unresolved table pre f post Hsplit Hpre Hf) as (e' & He' & E).
  rewrite E in He. simpl in He. exists pre, f, post. by simplify_eq.
Qed.

(** X5: what the renderers read from the row of a record whose headers
    resolve.  Under the name of a field the row reads as the stringified
    value of the first field of that name; under any other name it reads
    as the empty string.  So the values of a selection, in text mode and
    in CSV mode, are those texts in the order of the selection. *)
Theorem selected_values_of_a_record (table : TableStruct) (fields : list string) :
  Forall (resolves table) (Fields table) ->
  (forall name, map_index (row_of table) name = cell_text table name)
  /\ (forall name, name ∉ map Name (Fields table) ->
        map_index (row_of table) name = "")
  /\ values fields (row_of table) = map (cell_text table) fields
  /\ cells [row_of table] fields = [map (cell_text table) fields].
Proof.
  intros Hall.
  assert (forall name, map_index (row_of table) name = cell_text table name) as Hread.
  { intros name. unfold map_index, row_of.
    rewrite (TableRow_resolved table Hall). simpl.
    unfold row_after, cell_text. rewrite row_fold_lookup.
    destruct (decide (name ∈ map Name (Fields table))) as [Hin|Hin].
    - by destruct (FieldByName (Fields table) name).
    - apply FieldByName_None in Hin. by rewrite Hin, lookup_empty. }
  split; [done|]. split.
  { intros name Hnot. rewrite Hread. unfold cell_text.
    apply FieldByName_None in Hnot. by rewrite Hnot. }
  split.
  - rewrite values_map. by apply map_ext.
  - unfold cells. simpl. f_equal. by apply map_ext.
Qed.

Lemma selected_values_of_a_record_witness :
  (forall name,
     map_index (row_of (Samples.person "Alice" 30)) name
     = cell_text (Samples.person "Alice" 30) name)
  /\ (forall name, name ∉ map Name (Fields (Samples.person "Alice" 30)) ->
        map_index (row_of (Samples.person "Alice" 30)) name = "")
  /\ values ["Age"; "Town"; "Name"] (row_of (Samples.person "Alice" 30))
     = map (cell_text (Samples.person "Alice" 30)) ["Age"; "Town"; "Name"]
  /\ cells [row_of (Samples.person "Alice" 30)] ["Age"; "Town"; "Name"]
     = [map (cell_text (Samples.person "Alice" 30)) ["Age"; "Town"; "Name"]].
Proof.
  apply (selected_values_of_a_record (Samples.person "Alice" 30) ["Age"; "Town"; "Name"]).
  repeat constructor.
Defined.



(** ** The CSV renderer *)

Section csv_more.
Context {World : Type} `{CsvWriter World}.

Lemma write_all_app (a b : list (list string)) : forall w : World,
  write_all (a ++ b) w
  = match write_all a w with
    | (w', Some e) => (w', Some e)
    | (w', None) => write_all b w'
    end.
Proof.
  induction a as [|r a IH]; intros w; simpl; [done|].
  destruct (csv_Write r w) as [w' [e|]]; [done|]. apply IH.
Qed.

Lemma generateCSV_eq (data : list (gmap string string)) (fields : list string)
    (w : World) :
  generateCSV data fields w
  = (csv_Flush (write_all (cells data fields) (csv_NewWriter w)).1,
     (write_all (cells data fields) (csv_NewWriter w)).2).
Proof.
  unfold generateCSV. rewrite generateCSV_loop_cells.
  by destruct (write_all (cells data fields) (csv_NewWriter w)).
Qed.
End csv_more.

(** X7: [generateCSV] stops at the first record the writer rejects.  When
    the rows before [row] are written without error and the write of
    [row] fails, the rows after it are not written, the deferred flush
    still runs on the state that write left, and the error returned is
    the one of that write. *)
Theorem generateCSV_stops_at_first_write_error {World : Type} `{CsvWriter World}
    (pre : list (gmap string string)) (row : gmap string string)
    (post : list (gmap string string)) (fields : list string)
    (w w1 w2 : World) (e : error) :
  write_all (cells pre fields) (csv_NewWriter w) = (w1, None) ->
  csv_Write (map (map_index row) fields) w1 = (w2, Some e) ->
  generateCSV (pre ++ row :: post) fields w = (csv_Flush w2, Some e).
Proof.
  intros Hpre Hrow. rewrite generateCSV_eq. unfold cells.
  rewrite map_app. cbn [map]. rewrite write_all_app.
  unfold cells in Hpre. rewrite Hpre. cbn [write_all]. by rewrite Hrow.
Qed.

Lemma generateCSV_stops_at_first_write_error_witness :
  generateCSV
    ([row_of (Samples.person "Alice" 30)] ++ row_of (Samples.person "Bob" 5)
       :: [row_of (Samples.person "Carol" 41)])
    ["Name"; "Age"] (Samples.pipe_with_room 1)
  = (csv_Flush {| Samples.taken := [["Alice"; "30"]]; Samples.room := 0 |},
     Some "write /dev/stdout: broken pipe").
Proof.
  apply (generateCSV_stops_at_first_write_error
           [row_of (Samples.person "Alice" 30)] (row_of (Samples.person "Bob" 5))
           [row_of (Samples.person "Carol" 41)] ["Name"; "Age"]
           (Samples.pipe_with_room 1)
           {| Samples.taken := [["Alice"; "30"]]; Samples.room := 0 |}
           {| Samples.taken := [["Alice"; "30"]]; Samples.room := 0 |}
           "write /dev/stdout: broken pipe").
  - vm_compute. reflexivity.
  - vm_compute. reflexivity.
Defined.



(** ** The text renderer *)

Lemma RuneCount_app (s t : string) :
  ascii_head t ->
  RuneCountInString (s +:+ t) = RuneCountInString s + RuneCountInString t.
Proof. intros Ht. unfold RuneCountInString. by apply count_from_app; [|lia]. Qed.

Lemma RuneCount_separator (t : string) :
  RuneCountInString (" | " +:+ t) = 3 + RuneCountInString t.
Proof. reflexivity. Qed.

Lemma RuneCount_joined (cs : list string) (ws : list nat) :
  Forall2 (fun c w => RuneCountInString c = w) cs ws ->
  RuneCountInString (GoString.Join cs " | " +:+ GoString.newline)
  = sum_list ws + 3 * (length ws - 1) + 1.
Proof.
  induction 1 as [|c w cs ws Hc Hrest IH]; [done|].
  destruct Hrest as [|c2 w2 cs ws Hc2 Hrest].
  - simpl. rewrite RuneCount_app by (simpl; lia). rewrite Hc.
    change (RuneCountInString GoString.newline) with 1. lia.
  - change (GoString.Join (c :: c2 :: cs) " | ")
      with (c +:+ " | " +:+ GoString.Join (c2 :: cs) " | ").
    rewrite !str_app_assoc.
    rewrite RuneCount_app by (simpl; lia).
    rewrite RuneCount_separator, IH, Hc. simpl. lia.
Qed.

Lemma RuneCount_render_line (data : list (gmap string string))
    (fieldMap : gmap string string) (fields : list string)
    (m : gmap string string) :
  (forall field, GoString.len (map_index m field) <= column_width data fieldMap field) ->
  RuneCountInString (render_line data fieldMap fields m)
  = line_width data fieldMap fields.
Proof.
  intros Hle. unfold render_line, line_width.
  rewrite (RuneCount_joined _ (map (column_width data fieldMap) fields)).
  - by rewrite length_map.
  - clear -Hle. induction fields as [|f fs IH]; simpl; constructor; [|done].
    by apply RuneCount_render_cell.
Qed.

Lemma column_width_agree (fields : list string)
    (data data' : list (gmap string string)) (fieldMap fieldMap' : gmap string string)
    (field : string) :
  Forall2 (agree_on fields) data data' -> agree_on fields fieldMap fieldMap' ->
  field ∈ fields ->
  column_width data fieldMap field = column_width data' fieldMap' field.
Proof.
  intros Hdata Hmap Hin. unfold column_width. rewrite (Hmap field Hin). f_equal.
  induction Hdata as [|r r' data data' Hr Hdata IH]; simpl; [done|].
  by rewrite IH, (Hr field Hin).
Qed.

Lemma render_line_agree (fields : list string)
    (data data' : list (gmap string string)) (fieldMap fieldMap' : gmap string string)
    (m m' : gmap string string) :
  Forall2 (agree_on fields) data data' -> agree_on fields fieldMap fieldMap' ->
  agree_on fields m m' ->
  render_line data fieldMap fields m = render_line data' fieldMap' fields m'.
Proof.
  intros Hdata Hmap Hm. unfold render_line. do 2 f_equal.
  apply map_ext_in. intros field Hin. apply list_elem_of_In in Hin.
  rewrite <- !padString_render_cell.
  by rewrite (column_width_agree fields data data' fieldMap fieldMap' field),
             (Hm field Hin).
Qed.

Lemma render_lines_agree (fields : list string)
    (data data' : list (gmap string string)) (fieldMap fieldMap' : gmap string string)
    (rows rows' : list (gmap string string)) :
  Forall2 (agree_on fields) data data' -> agree_on fields fieldMap fieldMap' ->
  Forall2 (agree_on fields) rows rows' ->
  map (render_line data fieldMap fields) rows
  = map (render_line data' fieldMap' fields) rows'.
Proof.
  intros Hdata Hmap Hrows.
  induction Hrows as [|r r' rows rows' Hr Hrows IH]; [done|].
  cbn [map]. f_equal; [by apply render_line_agree|done].
Qed.

(** X10: the text table reads the selected fields and nothing else.  Two
    lists of rows that read the same under every selected name, with
    header maps that do, are printed as the same text: entries under
    other names change neither the widths nor the lines. *)
Theorem generateTable_reads_selected_fields_only (fields : list string)
    (data data' : list (gmap string string))
    (fieldMap fieldMap' : gmap string string) :
  Forall2 (agree_on fields) data data' ->
  agree_on fields fieldMap fieldMap' ->
  generateTable data fieldMap fields = generateTable data' fieldMap' fields.
Proof.
  intros Hdata Hmap.
  assert (fstring data fieldMap fields = fstring data' fieldMap' fields) as Hf.
  { rewrite !fstring_eq. do 3 f_equal. apply map_ext_in. intros field Hin.
    apply list_elem_of_In in Hin.
    by apply (column_width_agree fields data data' fieldMap fieldMap' field). }
  assert (forall m m', agree_on fields m m' ->
            map (map_index m) fields = map (map_index m') fields) as Hread.
  { intros m m' Hm. apply map_ext_in. intros field Hin.
    apply list_elem_of_In in Hin. by apply Hm. }
  unfold generateTable, underline.
  rewrite !headerLine_Sprintf, !print_rows_Sprintf, Hf, (Hread _ _ Hmap).
  do 2 f_equal. clear Hf.
  generalize (fstring data' fieldMap' fields). intros f.
  induction Hdata as [|r r' rows rows' Hr Hrows IH]; [done|].
  cbn [map]. by rewrite IH, (Hread _ _ Hr).
Qed.

Lemma generateTable_reads_selected_fields_only_witness :
  generateTable [ {["Name" := "Alice"; "Age" := "30"]} ] {["Name" := "Who"; "Age" := "Years"]}
    ["Name"]
  = generateTable [ {["Name" := "Alice"]} ] {["Name" := "Who"]} ["Name"].
Proof.
  apply (generateTable_reads_selected_fields_only ["Name"]
           [ {["Name" := "Alice"; "Age" := "30"]} ] [ {["Name" := "Alice"]} ]
           {["Name" := "Who"; "Age" := "Years"]} {["Name" := "Who"]}).
  - constructor; [|constructor].
    intros field Hin. apply list_elem_of_singleton in Hin. subst field.
    vm_compute. reflexivity.
  - intros field Hin. apply list_elem_of_singleton in Hin. subst field.
    vm_compute. reflexivity.
Defined.

(** X11: with an empty selection the text table has no cells but keeps
    its lines: an empty header line, an empty underline, and one empty
    line for every row. *)
Theorem empty_selection_prints_empty_lines (data : list (gmap string string))
    (fieldMap : gmap string string) :
  generateTable data fieldMap []
  = GoString.newline +:+ GoString.newline
    +:+ GoString.Repeat GoString.newline (length data)
  /\ colWidth data fieldMap [] = []
  /\ underline data fieldMap [] = "".
Proof.
  assert (widths_fit data fieldMap []) as Hfit.
  { apply widths_fit_columns. intros field Hin. by apply elem_of_nil in Hin. }
  assert (headerLine data fieldMap [] = GoString.newline) as Hhdr
    by (by rewrite headerLine_eq).
  split; [|split].
  - rewrite generateTable_lines by done. unfold underline. rewrite Hhdr.
    assert (GoString.Concat (map (render_line data fieldMap []) data)
            = GoString.Repeat GoString.newline (length data)) as ->.
    { generalize data at 1. intros full. clear Hhdr Hfit.
      induction data as [|r data IH]; simpl; [done|]. by rewrite IH. }
    unfold render_line. simpl. by rewrite !str_app_nil_l.
  - by rewrite colWidth_eq.
  - unfold underline. by rewrite Hhdr.
Qed.

Section line_feed_facts.
Implicit Types (s t : string) (c : ascii).

Lemma count_byte_app c s t :
  count_byte c (s +:+ t) = count_byte c s + count_byte c t.
Proof.
  induction s as [|a s IH]; [done|]. rewrite str_app_cons. simpl.
  rewrite IH. lia.
Qed.

Lemma count_byte_Repeat c a n :
  a ≠ c -> count_byte c (GoString.Repeat (String.String a "") n) = 0.
Proof.
  intros Hne. induction n as [|n IH]; [done|]. simpl.
  rewrite count_byte_app, IH. simpl. by rewrite decide_False.
Qed.

Lemma line_feeds_padString wid s :
  line_feeds (fmt.padString wid s) = line_feeds s.
Proof.
  unfold line_feeds, fmt.padString.
  rewrite count_byte_app, count_byte_Repeat by discriminate. lia.
Qed.

Lemma line_feeds_Join (cs : list string) :
  line_feeds (GoString.Join cs " | ") = sum_list (map line_feeds cs).
Proof.
  induction cs as [|c cs IH]; [done|].
  destruct cs as [|c2 cs]; [simpl; lia|].
  change (GoString.Join (c :: c2 :: cs) " | ")
    with (c +:+ " | " +:+ GoString.Join (c2 :: cs) " | ").
  unfold line_feeds in *. rewrite !count_byte_app, IH. simpl. lia.
Qed.

Lemma line_feeds_Concat (lines : list string) :
  line_feeds (GoString.Concat lines) = sum_list (map line_feeds lines).
Proof.
  induction lines as [|l lines IH]; [done|]. simpl.
  unfold line_feeds in *. by rewrite count_byte_app, IH.
Qed.
End line_feed_facts.

Lemma line_feeds_render_line (data : list (gmap string string))
    (fieldMap : gmap string string) (fields : list string)
    (m : gmap string string) :
  line_feeds (render_line data fieldMap fields m)
  = sum_list (map (fun field => line_feeds (map_index m field)) fields) + 1.
Proof.
  unfold render_line. unfold line_feeds at 1. rewrite count_byte_app.
  fold (line_feeds (GoString.Join
          (map (fun field => render_cell (column_width data fieldMap field) m field) fields)
          " | ")).
  rewrite line_feeds_Join, map_map. simpl. f_equal. f_equal.
  apply map_ext. intros field. by rewrite <- padString_render_cell, line_feeds_padString.
Qed.

(** X12: in a table whose columns are all narrower than 10,000,010 the
    text renderer escapes nothing, and it prints one line for the
    headers, one for the underline and one for every row when no text
    holds a line feed.  The line feeds of the output are those two, one
    for each row, and every line feed found in a selected header or in a
    selected cell, which goes to the output as it is. *)
Theorem text_table_line_feeds (data : list (gmap string string))
    (fieldMap : gmap string string) (fields : list string) :
  widths_fit data fieldMap fields ->
  line_feeds (generateTable data fieldMap fields)
  = 2 + length data
    + sum_list (map (fun field => line_feeds (map_index fieldMap field)) fields)
    + sum_list
        (map (fun r =>
                sum_list (map (fun field => line_feeds (map_index r field)) fields))
           data)
  /\ (single_line fields fieldMap -> Forall (single_line fields) data ->
      line_feeds (generateTable data fieldMap fields) = 2 + length data).
Proof.
  intros Hfit.
  assert (line_feeds (generateTable data fieldMap fields)
          = 2 + length data
            + sum_list (map (fun field => line_feeds (map_index fieldMap field)) fields)
            + sum_list
                (map (fun r =>
                        sum_list (map (fun field => line_feeds (map_index r field)) fields))
                   data)) as Hcount.
  { rewrite generateTable_lines by done. unfold line_feeds at 1.
    rewrite !count_byte_app.
    fold (line_feeds (render_line data fieldMap fields fieldMap)).
    fold (line_feeds (GoString.Concat (map (render_line data fieldMap fields) data))).
    rewrite line_feeds_render_line, line_feeds_Concat, map_map.
    unfold underline. rewrite count_byte_Repeat by discriminate.
    change (count_byte "010" GoString.newline) with 1.
    assert (sum_list (map (fun r => line_feeds (render_line data fieldMap fields r)) data)
            = length data
              + sum_list
                  (map (fun r =>
                          sum_list (map (fun field => line_feeds (map_index r field)) fields))
                     data)) as ->; [|lia].
    clear Hfit. generalize data at 2 3 4. intros rows.
    induction rows as [|r rows IH]; simpl; [done|].
    rewrite IH, line_feeds_render_line. lia. }
  split; [done|]. intros Hhdr Hcells. rewrite Hcount.
  assert (forall (m : gmap string string), single_line fields m ->
            sum_list (map (fun field => line_feeds (map_index m field)) fields) = 0) as Hzero.
  { intros m Hm. unfold single_line in Hm. clear -Hm.
    induction fields as [|f fs IH]; simpl; [done|].
    rewrite (Hm f) by (by left). rewrite IH; [done|]. intros field Hin. apply Hm. by right. }
  rewrite (Hzero fieldMap Hhdr).
  assert (sum_list
            (map (fun r =>
                    sum_list (map (fun field => line_feeds (map_index r field)) fields))
               data) = 0) as ->; [|lia].
  clear Hcount Hfit. induction Hcells as [|r rows Hr Hrows IH]; simpl; [done|].
  by rewrite (Hzero r Hr), IH.
Qed.

Lemma text_table_line_feeds_witness :
  widths_fit Samples.town_rows Samples.town_headers ["Name"; "Town"]
  /\ line_feeds (generateTable Samples.town_rows Samples.town_headers ["Name"; "Town"])
     = 2 + length Samples.town_rows
       + sum_list (map (fun field => line_feeds (map_index Samples.town_headers field))
                     ["Name"; "Town"])
       + sum_list
           (map (fun r =>
                   sum_list (map (fun field => line_feeds (map_index r field))
                               ["Name"; "Town"]))
              Samples.town_rows).
Proof.
  assert (widths_fit Samples.town_rows Samples.town_headers ["Name"; "Town"]) as Hfit.
  { unfold widths_fit. vm_compute. repeat constructor. }
  split; [exact Hfit|].
  exact (proj1 (text_table_line_feeds Samples.town_rows Samples.town_headers
                  ["Name"; "Town"] Hfit)).
Defined.

(** X9: the lines of the text table are equally wide.  In a table whose
    columns are all narrower than 10,000,010 and whose selected headers
    and cells hold no line feed, the output is the header line, the
    underline and the data lines, and the header line and every data
    line is one line, ended by its only line feed, of the same number of
    characters (runes, line feed included): the widths of the columns,
    three for each separator and one for the line feed; so the
    separators of all lines stand under one another. *)
Theorem table_lines_equally_wide (data : list (gmap string string))
    (fieldMap : gmap string string) (fields : list string) :
  widths_fit data fieldMap fields ->
  single_line fields fieldMap ->
  Forall (single_line fields) data ->
  generateTable data fieldMap fields
  = headerLine data fieldMap fields
    +:+ underline data fieldMap fields +:+ GoString.newline
    +:+ GoString.Concat
          (map (fun r => Sprintf (fstring data fieldMap fields) (values fields r)) data)
  /\ Forall (fun line =>
               RuneCountInString line = line_width data fieldMap fields
               /\ line_feeds line = 1
               /\ exists body, line = body +:+ GoString.newline)
       (headerLine data fieldMap fields
        :: map (fun r => Sprintf (fstring data fieldMap fields) (values fields r)) data).
Proof.
  intros Hfit Hhdr Hcells.
  assert (forall m, single_line fields m ->
            line_feeds (render_line data fieldMap fields m) = 1) as Hone.
  { intros m Hm. rewrite line_feeds_render_line.
    assert (sum_list (map (fun field => line_feeds (map_index m field)) fields) = 0) as ->;
      [|done].
    unfold single_line in Hm. clear -Hm.
    induction fields as [|f fs IH]; simpl; [done|].
    rewrite (Hm f) by (by left). rewrite IH; [done|]. intros field Hin. apply Hm. by right. }
  assert (map (fun r => Sprintf (fstring data fieldMap fields) (values fields r)) data
          = map (render_line data fieldMap fields) data) as Hlines.
  { apply map_ext. intros r. rewrite values_map. by apply Sprintf_fstring. }
  rewrite Hlines, headerLine_eq by done. split; [by apply generateTable_lines|].
  constructor.
  - split; [|split; [by apply Hone|unfold render_line; eauto]].
    apply RuneCount_render_line. intros field.
    by destruct (len_le_column_width data fieldMap field).
  - apply Forall_forall. intros line Hline.
    apply list_elem_of_fmap in Hline as (r & -> & Hr).
    split; [|split; [|unfold render_line; eauto]].
    + apply RuneCount_render_line. intros field.
      destruct (len_le_column_width data fieldMap field) as [_ Hrows]. by apply Hrows.
    + apply Hone. rewrite Forall_forall in Hcells. by apply Hcells.
Qed.

Lemma table_lines_equally_wide_witness :
  generateTable Samples.town_rows Samples.town_headers ["Name"; "Town"]
  = headerLine Samples.town_rows Samples.town_headers ["Name"; "Town"]
    +:+ underline Samples.town_rows Samples.town_headers ["Name"; "Town"]
    +:+ GoString.newline
    +:+ GoString.Concat
          (map (fun r => Sprintf (fstring Samples.town_rows Samples.town_headers
                                    ["Name"; "Town"])
                           (values ["Name"; "Town"] r)) Samples.town_rows)
  /\ Forall (fun line =>
               RuneCountInString line
               = line_width Samples.town_rows Samples.town_headers ["Name"; "Town"]
               /\ line_feeds line = 1
               /\ exists body, line = body +:+ GoString.newline)
       (headerLine Samples.town_rows Samples.town_headers ["Name"; "Town"]
        :: map (fun r => Sprintf (fstring Samples.town_rows Samples.town_headers
                                    ["Name"; "Town"])
                           (values ["Name"; "Town"] r)) Samples.town_rows).
Proof.
  apply (table_lines_equally_wide Samples.town_rows Samples.town_headers
           ["Name"; "Town"]).
  - unfold widths_fit. vm_compute. repeat constructor.
  - intros field Hin.
    repeat (apply elem_of_cons in Hin as [->|Hin]; [vm_compute; reflexivity|]).
    by apply elem_of_nil in Hin.
  - repeat constructor; intros field Hin;
      repeat (apply elem_of_cons in Hin as [->|Hin]; [vm_compute; reflexivity|]);
      by apply elem_of_nil in Hin.
Defined.

(** ** The text entry point, end to end *)

Lemma render_line_table_line (data : list (gmap string string))
    (fieldMap : gmap string string) (fields : list string) (m : gmap string string) :
  render_line data fieldMap fields m
  = table_line fields (column_width data fieldMap) (map_index m).
Proof.
  unfold render_line, table_line. do 2 f_equal. apply map_ext. intros field.
  by rewrite padString_render_cell.
Qed.

Lemma map_index_row_of (item : TableStruct) (name : string) :
  introspects item -> map_index (row_of item) name = cell_text item name.
Proof.
  intros Hall%introspects_iff. unfold map_index, row_of.
  rewrite (TableRow_resolved item Hall). simpl.
  unfold row_after, cell_text. rewrite row_fold_lookup.
  destruct (decide (name ∈ map Name (Fields item))) as [Hin|Hin].
  - by destruct (FieldByName (Fields item) name).
  - apply FieldByName_None in Hin. by rewrite Hin, lookup_empty.
Qed.

(** X13: [GenerateTable], from the records to the text.  For records
    introspected without error, the last of them [final], in a table
    whose columns are all narrower than 10,000,010, the output is the
    header line, the underline and one line for each record in order.  A
    header is what [GetHeader] of [final] gave for the selected name,
    empty when [final] has no such field; a cell is the stringified value
    of the field of that name, empty when the record has none; a column
    is as wide as the longest of its header and its cells, in bytes. *)
Theorem GenerateTable_prints_one_line_per_record (rest : list TableStruct)
    (final : TableStruct) (fields : list string) :
  Forall introspects (rest ++ [final]) ->
  widths_fit (map row_of (rest ++ [final])) (headers_of final) fields ->
  exists wid : string -> nat,
    (forall field,
       wid field
       = Nat.max (GoString.len (map_index (headers_of final) field))
           (max_list_with (fun item => GoString.len (cell_text item field))
              (rest ++ [final])))
    /\ (forall name,
          map_index (headers_of final) name
          = if decide (name ∈ map Name (Fields final))
            then (GetHeader final name).1 else "")
    /\ GenerateTable (rest ++ [final]) fields
       = (table_line fields wid (map_index (headers_of final))
          +:+ GoString.Repeat "="
                (GoString.len (table_line fields wid (map_index (headers_of final))) - 1)
          +:+ GoString.newline
          +:+ GoString.Concat
                (map (fun item => table_line fields wid (cell_text item))
                   (rest ++ [final])),
          None).
Proof.
  intros Hall Hfit.
  exists (column_width (map row_of (rest ++ [final])) (headers_of final)).
  split; [|split].
  - intros field. unfold column_width. f_equal. clear Hfit.
    revert Hall. generalize (rest ++ [final]). intros tables Hall.
    induction Hall as [|item tables Hitem Hall IH]; simpl; [done|].
    by rewrite IH, map_index_row_of.
  - intros name. unfold map_index, headers_of.
    apply Forall_app in Hall as [_ Hfinal]. rewrite Forall_singleton in Hfinal.
    apply introspects_iff in Hfinal. rewrite (TableRow_resolved final Hfinal). simpl.
    unfold headers_after. rewrite headers_fold_lookup.
    by destruct (decide (name ∈ map Name (Fields final))); rewrite ?lookup_empty.
  - unfold GenerateTable. rewrite (GenerateTable_loop_ok _ [] ∅ Hall).
    rewrite last_snoc. simpl. f_equal.
    rewrite generateTable_lines by done. unfold underline.
    rewrite headerLine_eq by done. rewrite !render_line_table_line. do 3 f_equal.
    rewrite map_map. f_equal. apply map_ext_in. intros item Hitem.
    apply list_elem_of_In in Hitem. rewrite Forall_forall in Hall.
    specialize (Hall item Hitem). rewrite render_line_table_line.
    unfold table_line. do 2 f_equal. apply map_ext. intros field.
    by rewrite map_index_row_of.
Qed.

Lemma GenerateTable_prints_one_line_per_record_witness :
  exists wid : string -> nat,
    (forall field,
       wid field
       = Nat.max (GoString.len (map_index (headers_of (Samples.person "Bob" 5)) field))
           (max_list_with (fun item => GoString.len (cell_text item field))
              ([Samples.person "Alice" 30] ++ [Samples.person "Bob" 5])))
    /\ (forall name,
          map_index (headers_of (Samples.person "Bob" 5)) name
          = if decide (name ∈ map Name (Fields (Samples.person "Bob" 5)))
            then (GetHeader (Samples.person "Bob" 5) name).1 else "")
    /\ GenerateTable ([Samples.person "Alice" 30] ++ [Samples.person "Bob" 5])
         ["Name"; "Age"]
       = (table_line ["Name"; "Age"] wid (map_index (headers_of (Samples.person "Bob" 5)))
          +:+ GoString.Repeat "="
                (GoString.len
                   (table_line ["Name"; "Age"] wid
                      (map_index (headers_of (Samples.person "Bob" 5)))) - 1)
          +:+ GoString.newline
          +:+ GoString.Concat
                (map (fun item => table_line ["Name"; "Age"] wid (cell_text item))
                   ([Samples.person "Alice" 30] ++ [Samples.person "Bob" 5])),
          None).
Proof.
  apply (GenerateTable_prints_one_line_per_record
           [Samples.person "Alice" 30] (Samples.person "Bob" 5) ["Name"; "Age"]).
  - repeat constructor.
  - unfold widths_fit. vm_compute. repeat constructor.
Defined.
